(** * Sequence planning in the Pilz industrial motion planner

    A shallow embedding of [CommandListManager]
    (moveit_planners/pilz_industrial_motion_planner/src/command_list_manager.cpp)
    and the properties of its blend-radius table, validation checks,
    sequence planning, overlap detection, assembly and de-duplication. *)

From Stdlib Require Import ZArith String Ascii Floats DecimalString Lia Bool.
From stdpp Require Import base list.

Local Open Scope Z_scope.

(** ** Machine data *)

(** C++ [double]: IEEE 754 binary64, as Rocq's primitive floats. *)
Abbreviation double := float (only parsing).
Definition d0 : double := 0%float.
Arguments d0 : simpl never.

(** [size_t] values are integers in [0, 2^64); subtraction wraps around. *)
Definition SIZE_T_MODULUS : Z := 2 ^ 64.

Definition size_t_sub (a b : Z) : Z :=
  if a <? b then a - b + SIZE_T_MODULUS else a - b.

Definition size {A : Type} (c : list A) : Z := Z.of_nat (length c).

(** [operator<<] on an unsigned integer prints it in decimal. *)
Definition print_size_t (i : Z) : string :=
  NilZero.string_of_uint (N.to_uint (Z.to_N i)).

(** ** Outcomes of fallible code *)

Inductive Exception : Type :=
| NegativeBlendRadiusException (what : string)
| LastBlendRadiusNotZeroException (what : string)
| StartStateSetException (what : string)
| PlanningPipelineException (what : string) (error_code_val : Z)
| OverlappingBlendRadiiException (what : string)
| std_out_of_range.

(** [Ok]: normal return.  [Throw]: a C++ exception propagates.
    [OutOfRangeAccess]: an unchecked access outside a container (undefined
    behaviour in C++).  [OutOfFuel]: the executable model of a loop ran out of
    iterations; the lemmas on each loop show that this never happens. *)
Inductive Result (A : Type) : Type :=
| Ok (a : A)
| Throw (e : Exception)
| OutOfRangeAccess
| OutOfFuel.

Arguments Ok {A} a.
Arguments Throw {A} e.
Arguments OutOfRangeAccess {A}.
Arguments OutOfFuel {A}.

Definition rbind {A B : Type} (c : Result A) (k : A -> Result B) : Result B :=
  match c with
  | Ok a => k a
  | Throw e => Throw e
  | OutOfRangeAccess => OutOfRangeAccess
  | OutOfFuel => OutOfFuel
  end.

Declare Scope result_scope.
Delimit Scope result_scope with result.
Notation "x <- c ; k" := (rbind c (fun x => k))
  (at level 100, c at next level, right associativity) : result_scope.
Notation "c ;; k" := (rbind c (fun _ => k))
  (at level 100, right associativity) : result_scope.

(** [std::vector::at]: bounds-checked access. *)
Definition vector_at {A : Type} (v : list A) (i : Z) : Result A :=
  if i <? 0 then Throw std_out_of_range
  else match v !! Z.to_nat i with
       | Some x => Ok x
       | None => Throw std_out_of_range
       end.

(** [v.at(i) = x]. *)
Definition vector_at_put {A : Type} (v : list A) (i : Z) (x : A) : Result (list A) :=
  if i <? 0 then Throw std_out_of_range
  else if i <? size v then Ok (<[Z.to_nat i := x]> v)
  else Throw std_out_of_range.

(** [for (size_t i = i0; i < bound; ++i) body], where the bound is re-read from
    the loop state before every iteration.  As [i < bound < 2^64] whenever the
    body runs, [++i] does not wrap. *)
Fixpoint for_size_t {St : Type} (fuel : nat) (i : Z) (bound : St -> Z)
    (body : Z -> St -> Result St) (s : St) : Result St :=
  match fuel with
  | O => OutOfFuel
  | S fuel' =>
      if i <? bound s
      then (s' <- body i s; for_size_t fuel' (i + 1) bound body s')%result
      else Ok s
  end.

(** ** Messages and robot data *)

Record JointState : Type := {
  name : list string;
  position : list double;
  velocity : list double;
  effort : list double
}.

Record RobotStateMsg : Type := {
  joint_state : JointState;
  is_diff : bool
}.

Record MotionPlanRequest : Type := {
  group_name : string;
  start_state : RobotStateMsg;
  goal_constraints : list string
}.

Record MotionSequenceItem : Type := {
  req : MotionPlanRequest;
  blend_radius : double
}.

Record MotionSequenceRequest : Type := {
  items : list MotionSequenceItem
}.

Record Vector3 : Type := { vx : double; vy : double; vz : double }.

Definition vminus (a b : Vector3) : Vector3 :=
  {| vx := PrimFloat.sub (vx a) (vx b);
     vy := PrimFloat.sub (vy a) (vy b);
     vz := PrimFloat.sub (vz a) (vz b) |}.

Definition norm (v : Vector3) : double :=
  PrimFloat.sqrt
    (PrimFloat.add
       (PrimFloat.add (PrimFloat.mul (vx v) (vx v)) (PrimFloat.mul (vy v) (vy v)))
       (PrimFloat.mul (vz v) (vz v))).

(** Modelled from the spec: [moveit::core::RobotState] is not under src/.  A
    state is kept as the two observations the manager makes of it: the
    translation of a named frame, and its conversion to a message. *)
Record RobotState : Type := {
  getFrameTransform_translation : string -> Vector3;
  as_message : RobotStateMsg
}.

(** [robotStateToRobotStateMsg(state, msg)] overwrites [msg]. *)
Definition robotStateToRobotStateMsg (state : RobotState) (msg : RobotStateMsg)
    : RobotStateMsg :=
  as_message state.

(** Modelled from the spec: [robot_trajectory::RobotTrajectory] is not under
    src/.  A trajectory is an ordered sequence of waypoints, each a robot
    configuration with its time from start, and belongs to one group. *)
Record WayPoint : Type := {
  way_point : RobotState;
  duration_from_start : double
}.

Record RobotTrajectory : Type := {
  getGroupName : string;
  way_points : list WayPoint
}.

Definition getLastWayPoint (t : RobotTrajectory) : Result RobotState :=
  match last (way_points t) with
  | Some w => Ok (way_point w)
  | None => OutOfRangeAccess
  end.

Definition traj_size (t : RobotTrajectory) : Z := size (way_points t).

Definition getWayPointDurationFromStart (t : RobotTrajectory) (i : Z) : Result double :=
  if i <? 0 then OutOfRangeAccess
  else match way_points t !! Z.to_nat i with
       | Some w => Ok (duration_from_start w)
       | None => OutOfRangeAccess
       end.

Definition removeWayPoint (t : RobotTrajectory) (i : Z) : Result RobotTrajectory :=
  if i <? 0 then OutOfRangeAccess
  else if i <? size (way_points t)
       then Ok {| getGroupName := getGroupName t;
                  way_points := delete (Z.to_nat i) (way_points t) |}
       else OutOfRangeAccess.

Record MotionPlanResponse : Type := {
  trajectory : RobotTrajectory;
  error_code : Z
}.

(** Modelled from the spec: [moveit_msgs::msg::MoveItErrorCodes] is not under
    src/; the two codes the manager names. *)
Definition SUCCESS : Z := 1.
Definition FAILURE : Z := 99999.

(** Modelled from the spec: the kinematic model is not under src/.  It
    exposes, per group, whether the group has a solver and the group's tip
    frame. *)
Record RobotModel : Type := {
  hasSolver : string -> bool;
  getSolverTipFrame : string -> string
}.

(** ** BlendRadiusResolver *)

Definition isInvalidBlendRadii (model : RobotModel)
    (item_A item_B : MotionSequenceItem) : bool :=
  if PrimFloat.eqb (blend_radius item_A) d0 then false
  else if negb (String.eqb (group_name (req item_A)) (group_name (req item_B))) then true
  else if negb (hasSolver model (group_name (req item_A))) then true
  else false.

Definition extractBlendRadii_body (model : RobotModel)
    (req_items : list MotionSequenceItem) (i : Z) (radii : list double)
    : Result (list double) :=
  (item_A <- vector_at req_items i;
   item_B <- vector_at req_items (i + 1);
   if isInvalidBlendRadii model item_A item_B then Ok radii
   else (item <- vector_at req_items i;
         vector_at_put radii i (blend_radius item)))%result.

Definition extractBlendRadii (model : RobotModel) (req_list : MotionSequenceRequest)
    : Result (list double) :=
  let radii := replicate (length (items req_list)) d0 in
  for_size_t (S (length (items req_list))) 0
    (fun radii => size_t_sub (size radii) 1)
    (extractBlendRadii_body model (items req_list)) radii.

(** ** SequenceValidator *)

Definition dquote : string := String "034"%char EmptyString.
Definition newline : string := String "010"%char EmptyString.

Definition checkForNegativeRadii (req_list : MotionSequenceRequest) : Result unit :=
  if negb (forallb (fun req => PrimFloat.leb d0 (blend_radius req)) (items req_list))
  then Throw (NegativeBlendRadiusException "All blending radii MUST be non negative")
  else Ok tt.

(** Modelled from the spec: [checkLastBlendRadiusZero] is called by [solve] but
    defined outside src/; it rejects a request list whose final item has a
    nonzero blend radius. *)
Definition checkLastBlendRadiusZero (req_list : MotionSequenceRequest) : Result unit :=
  match last (items req_list) with
  | None => OutOfRangeAccess
  | Some back =>
      if negb (PrimFloat.eqb (blend_radius back) d0)
      then Throw (LastBlendRadiusNotZeroException "The last blending radius must be zero")
      else Ok tt
  end.

Definition start_state_empty (item : MotionSequenceItem) : bool :=
  let js := joint_state (start_state (req item)) in
  match position js, velocity js, effort js, name js with
  | [], [], [], [] => true
  | _, _, _, _ => false
  end.

Fixpoint checkStartStatesOfGroup_loop (req_items : list MotionSequenceItem)
    (group : string) (first_elem : bool) : Result unit :=
  match req_items with
  | [] => Ok tt
  | item :: rest =>
      if negb (String.eqb (group_name (req item)) group)
      then checkStartStatesOfGroup_loop rest group first_elem
      else if first_elem
      then checkStartStatesOfGroup_loop rest group false
      else if negb (start_state_empty item)
      then Throw (StartStateSetException
                    ("Only the first request is allowed to have a start state, but"
                     ++ " the requests for group: " ++ dquote ++ group ++ dquote
                     ++ " violate the rule"))
      else checkStartStatesOfGroup_loop rest group first_elem
  end.

Definition checkStartStatesOfGroup (req_list : MotionSequenceRequest)
    (group : string) : Result unit :=
  checkStartStatesOfGroup_loop (items req_list) group true.

Definition getGroupNames (req_list : MotionSequenceRequest) : list string :=
  fold_left
    (fun group_names item =>
       if existsb (String.eqb (group_name (req item))) group_names
       then group_names
       else group_names ++ [group_name (req item)])
    (items req_list) [].

Fixpoint checkStartStates_loop (req_list : MotionSequenceRequest)
    (group_names : list string) : Result unit :=
  match group_names with
  | [] => Ok tt
  | curr_group_name :: rest =>
      (checkStartStatesOfGroup req_list curr_group_name;;
       checkStartStates_loop req_list rest)%result
  end.

Definition checkStartStates (req_list : MotionSequenceRequest) : Result unit :=
  if size (items req_list) <=? 1 then Ok tt
  else checkStartStates_loop req_list (getGroupNames req_list).

(** ** External collaborators and the state they carry *)

(** Modelled from the spec: the planning scene is not under src/; the manager
    only hands it on to the planner and to the builder. *)
Record PlanningScene : Type := { getName : string }.

(** Modelled from the spec: the single-request planner,
    [generatePlan(scene, request) -> (success, response)].  Its answer may
    depend on the requests it served before, so it also reads that history. *)
Definition PlanningPipeline : Type :=
  list MotionPlanRequest -> PlanningScene -> MotionPlanRequest ->
  bool * MotionPlanResponse.

(** Modelled from the spec: the trajectory-composition builder
    ([PlanComponentsBuilder]) is not under src/.  [reset] forgets what was
    appended, [append] records a (scene, trajectory, incoming blend radius)
    tuple, and [build] returns one merged trajectory per maximal run of
    same-group segments, a group change forcing a split.  The blending
    algorithm that merges a run is the builder's [blender_]. *)
Record BuilderEntry : Type := {
  entry_scene : PlanningScene;
  entry_trajectory : RobotTrajectory;
  entry_blend_radius : double
}.

Record PlanComponentsBuilder : Type := {
  blender_ : list BuilderEntry -> RobotTrajectory;
  appended : list BuilderEntry
}.

Definition builder_reset (b : PlanComponentsBuilder) : PlanComponentsBuilder :=
  {| blender_ := blender_ b; appended := [] |}.

Definition builder_append (b : PlanComponentsBuilder) (scene : PlanningScene)
    (other : RobotTrajectory) (blend_radius : double) : PlanComponentsBuilder :=
  {| blender_ := blender_ b;
     appended := appended b ++
       [{| entry_scene := scene; entry_trajectory := other;
           entry_blend_radius := blend_radius |}] |}.

Fixpoint group_runs (entries : list BuilderEntry) : list (list BuilderEntry) :=
  match entries with
  | [] => []
  | e :: rest =>
      match group_runs rest with
      | (e' :: run) :: runs =>
          if String.eqb (getGroupName (entry_trajectory e))
                        (getGroupName (entry_trajectory e'))
          then (e :: e' :: run) :: runs
          else [e] :: (e' :: run) :: runs
      | _ => [[e]]
      end
  end.

Definition builder_build (b : PlanComponentsBuilder) : list RobotTrajectory :=
  map (blender_ b) (group_runs (appended b)).

(** What a [solve] call can change: the planner's history of served requests
    and the manager's builder. *)
Record World : Type := {
  generatePlan_calls : list MotionPlanRequest;
  plan_comp_builder_ : PlanComponentsBuilder
}.

Definition M (A : Type) : Type := World -> Result A * World.

Definition mret {A : Type} (a : A) : M A := fun w => (Ok a, w).

Definition mbind {A B : Type} (c : M A) (k : A -> M B) : M B :=
  fun w =>
    match c w with
    | (Ok a, w') => k a w'
    | (Throw e, w') => (Throw e, w')
    | (OutOfRangeAccess, w') => (OutOfRangeAccess, w')
    | (OutOfFuel, w') => (OutOfFuel, w')
    end.

Definition lift {A : Type} (r : Result A) : M A := fun w => (r, w).

(** An update of the builder.  A failing update is shown with the builder as
    it was; the updates [solve] makes do not fail (see
    [solve_append_all_entries]). *)
Definition with_builder (f : PlanComponentsBuilder -> Result PlanComponentsBuilder) : M unit :=
  fun w =>
    match f (plan_comp_builder_ w) with
    | Ok b => (Ok tt, {| generatePlan_calls := generatePlan_calls w;
                         plan_comp_builder_ := b |})
    | Throw e => (Throw e, w)
    | OutOfRangeAccess => (OutOfRangeAccess, w)
    | OutOfFuel => (OutOfFuel, w)
    end.

Definition generatePlan (planning_pipeline : PlanningPipeline)
    (planning_scene : PlanningScene) (req : MotionPlanRequest)
    : M (bool * MotionPlanResponse) :=
  fun w =>
    (Ok (planning_pipeline (generatePlan_calls w) planning_scene req),
     {| generatePlan_calls := generatePlan_calls w ++ [req];
        plan_comp_builder_ := plan_comp_builder_ w |}).

Definition build : M (list RobotTrajectory) :=
  fun w => (Ok (builder_build (plan_comp_builder_ w)), w).

Declare Scope M_scope.
Delimit Scope M_scope with M.
Notation "x <- c ; k" := (mbind c (fun x => k))
  (at level 100, c at next level, right associativity) : M_scope.
Notation "c ;; k" := (mbind c (fun _ => k))
  (at level 100, right associativity) : M_scope.

(** ** SequencePlanner *)

(** The reverse iteration of [getPreviousEndState], over the responses from
    the most recent one backwards. *)
Fixpoint getPreviousEndState_scan (rev_responses : list MotionPlanResponse)
    (group : string) : Result (option RobotState) :=
  match rev_responses with
  | [] => Ok None
  | it :: rest =>
      if String.eqb (getGroupName (trajectory it)) group
      then (last_way_point <- getLastWayPoint (trajectory it);
            Ok (Some last_way_point))%result
      else getPreviousEndState_scan rest group
  end.

Definition getPreviousEndState (motion_plan_responses : list MotionPlanResponse)
    (group : string) : Result (option RobotState) :=
  getPreviousEndState_scan (rev motion_plan_responses) group.

Definition setStartState (motion_plan_responses : list MotionPlanResponse)
    (group : string) (start : RobotStateMsg) : Result RobotStateMsg :=
  (rob_state_op <- getPreviousEndState motion_plan_responses group;
   match rob_state_op with
   | Some rob_state => Ok (robotStateToRobotStateMsg rob_state start)
   | None => Ok start
   end)%result.

Definition with_start_state (r : MotionPlanRequest) (start : RobotStateMsg)
    : MotionPlanRequest :=
  {| group_name := group_name r;
     start_state := start;
     goal_constraints := goal_constraints r |}.

Definition with_error_code (res : MotionPlanResponse) (val : Z) : MotionPlanResponse :=
  {| trajectory := trajectory res; error_code := val |}.

Fixpoint solveSequenceItems_loop (planning_scene : PlanningScene)
    (planning_pipeline : PlanningPipeline) (seq_items : list MotionSequenceItem)
    (motion_plan_responses : list MotionPlanResponse)
    : M (list MotionPlanResponse) :=
  match seq_items with
  | [] => mret motion_plan_responses
  | seq_item :: rest =>
      (start <- lift (setStartState motion_plan_responses
                        (group_name (req seq_item)) (start_state (req seq_item)));
       planned <- generatePlan planning_pipeline planning_scene
                    (with_start_state (req seq_item) start);
       let res := if fst planned then snd planned
                  else with_error_code (snd planned) FAILURE in
       if negb (error_code res =? SUCCESS)
       then lift (Throw (PlanningPipelineException
                           ("Could not solve request" ++ newline) (error_code res)))
       else solveSequenceItems_loop planning_scene planning_pipeline rest
              (motion_plan_responses ++ [res]))%M
  end.

Definition solveSequenceItems (planning_scene : PlanningScene)
    (planning_pipeline : PlanningPipeline) (req_list : MotionSequenceRequest)
    : M (list MotionPlanResponse) :=
  solveSequenceItems_loop planning_scene planning_pipeline (items req_list) [].

(** ** OverlapDetector *)

Definition checkRadiiForOverlap (model_ : RobotModel)
    (traj_A : RobotTrajectory) (radii_A : double)
    (traj_B : RobotTrajectory) (radii_B : double) : Result bool :=
  if negb (String.eqb (getGroupName traj_A) (getGroupName traj_B)) then Ok false
  else
    let sum_radii := PrimFloat.add radii_A radii_B in
    if PrimFloat.eqb sum_radii d0 then Ok false
    else
      let blend_frame := getSolverTipFrame model_ (getGroupName traj_A) in
      (last_A <- getLastWayPoint traj_A;
       last_B <- getLastWayPoint traj_B;
       let distance_endpoints :=
         norm (vminus (getFrameTransform_translation last_A blend_frame)
                      (getFrameTransform_translation last_B blend_frame)) in
       Ok (PrimFloat.leb distance_endpoints sum_radii))%result.

Definition overlap_message (i : Z) : string :=
  "Overlapping blend radii between command [" ++ print_size_t i
  ++ "] and [" ++ print_size_t (i + 1) ++ "].".

Definition checkForOverlappingRadii_body (model_ : RobotModel)
    (resp_cont : list MotionPlanResponse) (radii : list double)
    (i : Z) (_ : unit) : Result unit :=
  (resp_A <- vector_at resp_cont i;
   radii_A <- vector_at radii i;
   resp_B <- vector_at resp_cont (i + 1);
   radii_B <- vector_at radii (i + 1);
   overlap <- checkRadiiForOverlap model_ (trajectory resp_A) radii_A
                (trajectory resp_B) radii_B;
   if (overlap : bool)
   then Throw (OverlappingBlendRadiiException (overlap_message i))
   else Ok tt)%result.

Definition checkForOverlappingRadii (model_ : RobotModel)
    (resp_cont : list MotionPlanResponse) (radii : list double) : Result unit :=
  match resp_cont with
  | [] => Ok tt
  | _ =>
      if size resp_cont <? 3 then Ok tt
      else for_size_t (length resp_cont) 0
             (fun _ => size_t_sub (size resp_cont) 2)
             (checkForOverlappingRadii_body model_ resp_cont radii) tt
  end.

(** ** TrajectoryAssembler *)

(** The body of the append loop of [solve]: response [i] is appended with the
    radius at index [i - 1]. *)
Definition solve_append_body (planning_scene : PlanningScene)
    (resp_cont : list MotionPlanResponse) (radii : list double)
    (i : Z) (builder : PlanComponentsBuilder) : Result PlanComponentsBuilder :=
  (resp <- vector_at resp_cont i;
   radius <- (if 0 <? i then vector_at radii (i - 1) else Ok d0);
   Ok (builder_append builder planning_scene (trajectory resp) radius))%result.

Definition solve_append_all (planning_scene : PlanningScene)
    (resp_cont : list MotionPlanResponse) (radii : list double)
    (builder : PlanComponentsBuilder) : Result PlanComponentsBuilder :=
  for_size_t (S (length resp_cont)) 0 (fun _ => size resp_cont)
    (solve_append_body planning_scene resp_cont radii) builder.

(** The body of the de-duplication loop of [solve]. *)
Definition solve_dedup_body (i : Z) (traj : RobotTrajectory) : Result RobotTrajectory :=
  (t_i <- getWayPointDurationFromStart traj i;
   t_next <- getWayPointDurationFromStart traj (i + 1);
   if PrimFloat.eqb t_i t_next then removeWayPoint traj (i + 1) else Ok traj)%result.

Definition solve_dedup (traj : RobotTrajectory) : Result RobotTrajectory :=
  for_size_t (S (length (way_points traj))) 0
    (fun traj => size_t_sub (traj_size traj) 1) solve_dedup_body traj.

Fixpoint solve_dedup_all (res_vec : list RobotTrajectory) : Result (list RobotTrajectory) :=
  match res_vec with
  | [] => Ok []
  | traj :: rest =>
      (traj' <- solve_dedup traj;
       rest' <- solve_dedup_all rest;
       Ok (traj' :: rest'))%result
  end.

(** ** CommandListManager::solve *)

Definition solve (model_ : RobotModel) (planning_scene : PlanningScene)
    (planning_pipeline : PlanningPipeline) (req_list : MotionSequenceRequest)
    : M (list RobotTrajectory) :=
  match items req_list with
  | [] => mret []
  | _ =>
      (lift (checkForNegativeRadii req_list);;
       lift (checkLastBlendRadiusZero req_list);;
       lift (checkStartStates req_list);;
       resp_cont <- solveSequenceItems planning_scene planning_pipeline req_list;
       radii <- lift (extractBlendRadii model_ req_list);
       lift (checkForOverlappingRadii model_ resp_cont radii);;
       with_builder (fun b => Ok (builder_reset b));;
       with_builder (solve_append_all planning_scene resp_cont radii);;
       res_vec <- build;
       lift (solve_dedup_all res_vec))%M
  end.

(** ** Sample data *)

Definition empty_joint_state : JointState :=
  {| name := []; position := []; velocity := []; effort := [] |}.

Definition no_start_state : RobotStateMsg :=
  {| joint_state := empty_joint_state; is_diff := false |}.

Definition some_start_state : RobotStateMsg :=
  {| joint_state := {| name := ["joint_1"%string]; position := [d0];
                       velocity := []; effort := [] |};
     is_diff := false |}.

Definition sample_item (group : string) (start : RobotStateMsg) (radius : double)
    : MotionSequenceItem :=
  {| req := {| group_name := group; start_state := start; goal_constraints := [] |};
     blend_radius := radius |}.

(** A model in which only the group "arm" has a solver. *)
Definition sample_model : RobotModel :=
  {| hasSolver := fun g => String.eqb g "arm";
     getSolverTipFrame := fun _ => "tcp"%string |}.

Definition sample_state (x y z : double) : RobotState :=
  {| getFrameTransform_translation := fun _ => {| vx := x; vy := y; vz := z |};
     as_message := {| joint_state := {| name := ["joint_1"%string]; position := [x];
                                        velocity := []; effort := [] |};
                      is_diff := false |} |}.

(** A trajectory along the x axis: one waypoint per (x, time) pair. *)
Definition sample_trajectory (group : string) (points : list (double * double))
    : RobotTrajectory :=
  {| getGroupName := group;
     way_points := map (fun p => {| way_point := sample_state (fst p) d0 d0;
                                    duration_from_start := snd p |}) points |}.

Definition no_trajectory : RobotTrajectory :=
  {| getGroupName := ""%string; way_points := [] |}.

(** A planner that answers its k-th call with the k-th entry of a script, and
    reports a planning failure once the script is exhausted. *)
Definition scripted_pipeline (script : list (bool * MotionPlanResponse))
    : PlanningPipeline :=
  fun history _ _ =>
    nth (length history) script
      (false, {| trajectory := no_trajectory; error_code := -1 |}).

Definition planned (group : string) (points : list (double * double))
    : bool * MotionPlanResponse :=
  (true, {| trajectory := sample_trajectory group points; error_code := SUCCESS |}).

(** A blender that merely concatenates the waypoints of a run. *)
Definition concat_blender (run : list BuilderEntry) : RobotTrajectory :=
  {| getGroupName := match run with
                     | e :: _ => getGroupName (entry_trajectory e)
                     | [] => ""%string
                     end;
     way_points := concat (map (fun e => way_points (entry_trajectory e)) run) |}.

(** A planner that can plan for the group "arm" only; for any other group it
    reports a failure, with code -1 in its response. *)
Definition arm_only_pipeline : PlanningPipeline :=
  fun _ _ request =>
    if String.eqb (group_name request) "arm"
    then planned "arm" [(0, 0); (1, 1)]%float
    else (false, {| trajectory := no_trajectory; error_code := -1 |}).

(** Four "arm" segments whose end points lie 10 apart, blended with radii
    0.5 and 0.25 at the first two joints. *)
Definition sample_sequence4 : MotionSequenceRequest :=
  {| items := [sample_item "arm" some_start_state 0.5%float;
               sample_item "arm" no_start_state 0.25%float;
               sample_item "arm" no_start_state 0%float;
               sample_item "arm" no_start_state 0%float] |}.

Definition sample_script4 : list (bool * MotionPlanResponse) :=
  [planned "arm" [(0, 0); (10, 1)]%float;
   planned "arm" [(10, 0); (20, 1)]%float;
   planned "arm" [(20, 0); (30, 1)]%float;
   planned "arm" [(30, 0); (40, 1)]%float].

Definition sample_scene : PlanningScene := {| getName := "scene"%string |}.

Definition sample_world : World :=
  {| generatePlan_calls := [];
     plan_comp_builder_ := {| blender_ := concat_blender; appended := [] |} |}.

Definition times_of (traj : RobotTrajectory) : list double :=
  map duration_from_start (way_points traj).

(** ** Predicates used in the statements *)

Definition has_explicit_start_state (item : MotionSequenceItem) : Prop :=
  position (joint_state (start_state (req item))) <> []
  \/ velocity (joint_state (start_state (req item))) <> []
  \/ effort (joint_state (start_state (req item))) <> []
  \/ name (joint_state (start_state (req item))) <> [].

(** Some occurrence of a group other than its first one carries an explicit
    start state. *)
Definition start_state_conflict (req_items : list MotionSequenceItem) : Prop :=
  exists (i j : nat) item_i item_j,
    (i < j)%nat
    /\ req_items !! i = Some item_i /\ req_items !! j = Some item_j
    /\ group_name (req item_i) = group_name (req item_j)
    /\ has_explicit_start_state item_j.

(** The blend spheres of responses [i] and [i + 1] overlap: same group, a
    nonzero sum of radii, and final waypoints whose tip-frame positions lie no
    further apart than that sum. *)
Definition overlaps_at (model_ : RobotModel) (resp_cont : list MotionPlanResponse)
    (radii : list double) (i : nat) : Prop :=
  exists resp_A resp_B radii_A radii_B final_A final_B,
    resp_cont !! i = Some resp_A /\ resp_cont !! S i = Some resp_B
    /\ radii !! i = Some radii_A /\ radii !! S i = Some radii_B
    /\ getGroupName (trajectory resp_A) = getGroupName (trajectory resp_B)
    /\ PrimFloat.eqb (PrimFloat.add radii_A radii_B) d0 = false
    /\ last (way_points (trajectory resp_A)) = Some final_A
    /\ last (way_points (trajectory resp_B)) = Some final_B
    /\ PrimFloat.leb
         (norm (vminus
                  (getFrameTransform_translation (way_point final_A)
                     (getSolverTipFrame model_ (getGroupName (trajectory resp_A))))
                  (getFrameTransform_translation (way_point final_B)
                     (getSolverTipFrame model_ (getGroupName (trajectory resp_A))))))
         (PrimFloat.add radii_A radii_B) = true.

Definition has_way_points (resp : MotionPlanResponse) : Prop :=
  way_points (trajectory resp) <> [].

(** The table after [k] iterations: entries below [k] are settled, the
    others still hold their initial zero. *)
Definition radii_upto (model : RobotModel) (req_items : list MotionSequenceItem)
    (k : nat) (radii : list double) : Prop :=
  length radii = length req_items
  /\ (forall j, (k <= j < length req_items)%nat -> radii !! j = Some d0)
  /\ (forall j item_A item_B, (j < k)%nat ->
        req_items !! j = Some item_A -> req_items !! S j = Some item_B ->
        radii !! j = Some (if isInvalidBlendRadii model item_A item_B
                           then d0 else blend_radius item_A)).

(** The builder after [k] iterations: what it held before, followed by one
    entry per response, each with its incoming radius. *)
Definition appended_upto (planning_scene : PlanningScene)
    (resp_cont : list MotionPlanResponse) (radii : list double)
    (builder0 : PlanComponentsBuilder) (k : nat) (builder : PlanComponentsBuilder)
    : Prop :=
  blender_ builder = blender_ builder0
  /\ length (appended builder) = (length (appended builder0) + k)%nat
  /\ forall (i : nat) resp,
       (i < k)%nat -> resp_cont !! i = Some resp ->
       exists r,
         appended builder !! (length (appended builder0) + i)%nat
         = Some {| entry_scene := planning_scene;
                   entry_trajectory := trajectory resp;
                   entry_blend_radius := r |}
         /\ (i = 0%nat -> r = d0)
         /\ (forall i', i = S i' -> radii !! i' = Some r).

(** The text of the exception of [checkStartStatesOfGroup]. *)
Definition start_state_message (group : string) : string :=
  "Only the first request is allowed to have a start state, but"
  ++ " the requests for group: " ++ dquote ++ group ++ dquote ++ " violate the rule".

(** ** The de-duplication loop as one pass over a list *)

(** What the loop of [solve] keeps: a waypoint whose time equals that of the
    waypoint kept just before it is dropped, and the pass then resumes at
    the waypoint after the dropped one, without comparing it with the one
    kept. *)
Fixpoint dedup_pass (points : list WayPoint) : list WayPoint :=
  match points with
  | [] => []
  | w :: rest =>
      match rest with
      | [] => [w]
      | next :: rest' =>
          if PrimFloat.eqb (duration_from_start w) (duration_from_start next)
          then w :: dedup_pass rest'
          else w :: dedup_pass rest
      end
  end.

(** No two consecutive waypoints share their time from start. *)
Fixpoint adjacent_times_differ (points : list WayPoint) : bool :=
  match points with
  | [] => true
  | w :: rest =>
      match rest with
      | [] => true
      | next :: _ =>
          negb (PrimFloat.eqb (duration_from_start w) (duration_from_start next))
          && adjacent_times_differ rest
      end
  end.

(** No waypoint shares its time with both of the two waypoints after it. *)
Fixpoint no_run_of_three (points : list WayPoint) : bool :=
  match points with
  | [] => true
  | w :: rest =>
      match rest with
      | [] => true
      | next :: rest' =>
          match rest' with
          | [] => true
          | third :: _ =>
              negb (PrimFloat.eqb (duration_from_start w) (duration_from_start next)
                    && PrimFloat.eqb (duration_from_start w) (duration_from_start third))
          end
          && no_run_of_three rest
      end
  end.

(* ================================================================= *)
(** * Properties *)

(** ** Access lemmas *)

Lemma vector_at_lookup {A : Type} (v : list A) (k : nat) (x : A) :
  v !! k = Some x -> vector_at v (Z.of_nat k) = Ok x.
Proof.
  intros H. unfold vector_at.
  destruct (Z.ltb_spec (Z.of_nat k) 0) as [Hneg|_]; [lia|].
  rewrite Nat2Z.id, H. reflexivity.
Qed.

Lemma vector_at_put_lookup {A : Type} (v : list A) (k : nat) (x : A) :
  (k < length v)%nat -> vector_at_put v (Z.of_nat k) x = Ok (<[k := x]> v).
Proof.
  intros H. unfold vector_at_put, size.
  destruct (Z.ltb_spec (Z.of_nat k) 0) as [Hneg|_]; [lia|].
  destruct (Z.ltb_spec (Z.of_nat k) (Z.of_nat (length v))) as [_|Hge]; [|lia].
  rewrite Nat2Z.id. reflexivity.
Qed.

Lemma size_t_sub_no_wrap (a b : Z) : b <= a -> size_t_sub a b = a - b.
Proof.
  intros H. unfold size_t_sub.
  destruct (Z.ltb_spec a b); [lia | reflexivity].
Qed.

(** ** BlendRadiusResolver *)

Section BlendRadiusResolver.
Variable model : RobotModel.
Variable req_items : list MotionSequenceItem.

Lemma radii_upto_step (k : nat) (radii : list double) item_A item_B :
  radii_upto model req_items k radii ->
  req_items !! k = Some item_A -> req_items !! S k = Some item_B ->
  exists radii',
    extractBlendRadii_body model req_items (Z.of_nat k) radii = Ok radii'
    /\ radii_upto model req_items (S k) radii'.
Proof.
  intros (Hlen & Hzero & Hdone) HA HB.
  unfold extractBlendRadii_body.
  rewrite (vector_at_lookup _ _ _ HA).
  replace (Z.of_nat k + 1) with (Z.of_nat (S k)) by lia.
  rewrite (vector_at_lookup _ _ _ HB). cbn [rbind].
  pose proof (lookup_lt_Some _ _ _ HA) as Hk.
  destruct (isInvalidBlendRadii model item_A item_B) eqn:Hinv.
  - exists radii. split; [reflexivity|].
    split; [exact Hlen|]. split.
    + intros j Hj. apply Hzero. lia.
    + intros j a b Hj Ha Hb.
      destruct (decide (j = k)) as [->|Hne].
      * rewrite HA in Ha. rewrite HB in Hb.
        injection Ha as <-. injection Hb as <-.
        rewrite Hinv. apply Hzero. lia.
      * apply Hdone; [lia | assumption | assumption].
  - rewrite vector_at_put_lookup by lia.
    eexists. split; [reflexivity|].
    split; [rewrite length_insert; exact Hlen|]. split.
    + intros j Hj. rewrite list_lookup_insert_ne by lia. apply Hzero. lia.
    + intros j a b Hj Ha Hb.
      destruct (decide (j = k)) as [->|Hne].
      * rewrite HA in Ha. rewrite HB in Hb.
        injection Ha as <-. injection Hb as <-.
        rewrite Hinv. apply list_lookup_insert_eq. lia.
      * rewrite list_lookup_insert_ne by lia.
        apply Hdone; [lia | assumption | assumption].
Qed.

Lemma extractBlendRadii_loop_inv (fuel k : nat) (radii : list double) :
  (1 <= length req_items)%nat ->
  (k <= length req_items - 1)%nat ->
  (length req_items - 1 - k < fuel)%nat ->
  radii_upto model req_items k radii ->
  exists radii',
    for_size_t fuel (Z.of_nat k) (fun radii => size_t_sub (size radii) 1)
      (extractBlendRadii_body model req_items) radii = Ok radii'
    /\ radii_upto model req_items (length req_items - 1) radii'.
Proof.
  intros Hne. revert k radii.
  induction fuel as [|fuel IH]; intros k radii Hk Hfuel Hinv; [lia|].
  cbn [for_size_t].
  assert (Hbound : size_t_sub (size radii) 1 = Z.of_nat (length req_items) - 1).
  { destruct Hinv as (Hlen & _). unfold size. rewrite Hlen.
    apply size_t_sub_no_wrap. lia. }
  rewrite Hbound.
  destruct (Z.ltb_spec (Z.of_nat k) (Z.of_nat (length req_items) - 1)) as [Hlt|Hge].
  - destruct (lookup_lt_is_Some_2 req_items k ltac:(lia)) as [item_A HA].
    destruct (lookup_lt_is_Some_2 req_items (S k) ltac:(lia)) as [item_B HB].
    destruct (radii_upto_step k radii item_A item_B Hinv HA HB) as (radii1 & Hbody & Hinv1).
    rewrite Hbody. cbn [rbind].
    replace (Z.of_nat k + 1) with (Z.of_nat (S k)) by lia.
    apply IH; [lia | lia | exact Hinv1].
  - exists radii. split; [reflexivity|].
    replace (length req_items - 1)%nat with k by lia. exact Hinv.
Qed.

Lemma radii_upto_init : radii_upto model req_items 0 (replicate (length req_items) d0).
Proof.
  split; [apply length_replicate|]. split.
  - intros j Hj. apply lookup_replicate_2. lia.
  - intros j a b Hj. lia.
Qed.

End BlendRadiusResolver.

Lemma isInvalidBlendRadii_true model item_A item_B :
  isInvalidBlendRadii model item_A item_B = true <->
  PrimFloat.eqb (blend_radius item_A) d0 = false
  /\ (group_name (req item_A) <> group_name (req item_B)
      \/ hasSolver model (group_name (req item_A)) = false).
Proof.
  unfold isInvalidBlendRadii.
  destruct (PrimFloat.eqb (blend_radius item_A) d0).
  - split; [discriminate | intros [H _]; discriminate].
  - destruct (String.eqb_spec (group_name (req item_A)) (group_name (req item_B))) as [Heq|Hne];
      cbn [negb].
    + destruct (hasSolver model (group_name (req item_A))); cbn [negb].
      * split; [discriminate | intros [_ [H|H]]; [contradiction | discriminate]].
      * split; [intros _; split; [reflexivity | right; reflexivity] | reflexivity].
    + split; [intros _; split; [reflexivity | left; exact Hne] | reflexivity].
Qed.

(** C1 (as amended): for a request list of length N >= 1, [extractBlendRadii]
    never fails and returns a table of length N (one entry per item, not
    N-1).  For every adjacent pair (i, i+1), entry i is item i's declared
    radius when that radius is zero or when both items target the same group
    and that group has a solver; it is zero when the declared radius is
    nonzero and the groups differ or the group has no solver.  The last
    entry, index N-1, is always zero. *)
Theorem extractBlendRadii_table (model : RobotModel) (req_list : MotionSequenceRequest) :
  items req_list <> [] ->
  exists radii,
    extractBlendRadii model req_list = Ok radii
    /\ length radii = length (items req_list)
    /\ radii !! (length (items req_list) - 1)%nat = Some d0
    /\ forall i item_A item_B,
         items req_list !! i = Some item_A ->
         items req_list !! S i = Some item_B ->
         exists r,
           radii !! i = Some r
           /\ (PrimFloat.eqb (blend_radius item_A) d0 = true ->
               r = blend_radius item_A /\ PrimFloat.eqb r d0 = true)
           /\ (PrimFloat.eqb (blend_radius item_A) d0 = false ->
               group_name (req item_A) <> group_name (req item_B)
               \/ hasSolver model (group_name (req item_A)) = false ->
               r = d0)
           /\ (PrimFloat.eqb (blend_radius item_A) d0 = false ->
               group_name (req item_A) = group_name (req item_B) ->
               hasSolver model (group_name (req item_A)) = true ->
               r = blend_radius item_A).
Proof.
  intros Hne.
  assert (Hlen : (1 <= length (items req_list))%nat).
  { destruct (items req_list); [contradiction | cbn; lia]. }
  destruct (extractBlendRadii_loop_inv model (items req_list)
              (S (length (items req_list))) 0 (replicate (length (items req_list)) d0)
              Hlen ltac:(lia) ltac:(lia) (radii_upto_init model (items req_list)))
    as (radii & Hrun & Hlength & Hzero & Hdone).
  exists radii. split; [exact Hrun|]. split; [exact Hlength|].
  split; [apply Hzero; lia|].
  intros i item_A item_B HA HB.
  pose proof (lookup_lt_Some _ _ _ HB) as Hi.
  specialize (Hdone i item_A item_B ltac:(lia) HA HB).
  eexists. split; [exact Hdone|].
  destruct (isInvalidBlendRadii model item_A item_B) eqn:Hinv.
  - apply isInvalidBlendRadii_true in Hinv as [Hnz Hwhy].
    split; [congruence|]. split; [reflexivity|].
    intros _ Hsame Hsolver. destruct Hwhy; congruence.
  - split; [intros Hz; split; [reflexivity | exact Hz]|].
    split; [|reflexivity].
    intros Hnz Hwhy.
    assert (isInvalidBlendRadii model item_A item_B = true) as Hcontra
      by (apply isInvalidBlendRadii_true; split; assumption).
    congruence.
Qed.

Lemma extractBlendRadii_table_witness :
  items {| items := [sample_item "arm" no_start_state 1%float;
                     sample_item "arm" no_start_state 0%float] |} <> []
  /\ exists radii,
       extractBlendRadii sample_model
         {| items := [sample_item "arm" no_start_state 1%float;
                      sample_item "arm" no_start_state 0%float] |} = Ok radii
       /\ length radii = 2%nat
       /\ radii !! 1%nat = Some d0.
Proof.
  split; [discriminate|].
  destruct (extractBlendRadii_table sample_model
              {| items := [sample_item "arm" no_start_state 1%float;
                           sample_item "arm" no_start_state 0%float] |})
    as (radii & Hrun & Hlen & Hlast & _); [discriminate|].
  exists radii. split; [exact Hrun|]. split; [exact Hlen | exact Hlast].
Defined.

(** C1 (as stated) fails on the length: for a one-item list the table has one
    entry, not N-1 = 0 entries. *)
Lemma extractBlendRadii_length_counterexample :
  exists radii,
    extractBlendRadii sample_model
      {| items := [sample_item "arm" no_start_state 0%float] |} = Ok radii
    /\ length radii = 1%nat
    /\ length radii <> (length [sample_item "arm" no_start_state 0%float] - 1)%nat.
Proof.
  exists [d0]. split; [reflexivity|]. split; [reflexivity | discriminate].
Qed.

(** ** Comparisons of doubles against zero *)

Lemma Prim2SF_d0 : Prim2SF d0 = S754_zero false.
Proof. reflexivity. Qed.

(** [r < 0] excludes [r >= 0]. *)
Lemma negative_not_geq_zero (r : double) :
  PrimFloat.ltb r d0 = true -> PrimFloat.leb d0 r = false.
Proof.
  rewrite FloatAxioms.ltb_spec, FloatAxioms.leb_spec, Prim2SF_d0.
  unfold SFltb, SFleb.
  destruct (Prim2SF r) as [s| s | |s m e]; cbn; try destruct s; congruence.
Qed.

(** [r == 0] implies [r >= 0]. *)
Lemma zero_geq_zero (r : double) :
  PrimFloat.eqb r d0 = true -> PrimFloat.leb d0 r = true.
Proof.
  rewrite FloatAxioms.eqb_spec, FloatAxioms.leb_spec, Prim2SF_d0.
  unfold SFeqb, SFleb.
  destruct (Prim2SF r) as [s| s | |s m e]; cbn; try destruct s; congruence.
Qed.

(** ** SequenceValidator: negative radii *)

Lemma checkForNegativeRadii_negative (req_list : MotionSequenceRequest) :
  (exists item, In item (items req_list) /\ PrimFloat.ltb (blend_radius item) d0 = true) ->
  checkForNegativeRadii req_list
  = Throw (NegativeBlendRadiusException "All blending radii MUST be non negative").
Proof.
  intros (item & Hin & Hneg). unfold checkForNegativeRadii.
  destruct (forallb _ (items req_list)) eqn:Hall; [|reflexivity].
  rewrite forallb_forall in Hall. specialize (Hall item Hin). cbn beta in Hall.
  rewrite (negative_not_geq_zero _ Hneg) in Hall. discriminate.
Qed.

(** C8: a request list with a negative blend radius makes [solve] fail with
    [NegativeBlendRadiusException], and the world is left as it was: no
    request has been handed to the planner. *)
Theorem solve_negative_radius (model_ : RobotModel) (planning_scene : PlanningScene)
    (planning_pipeline : PlanningPipeline) (req_list : MotionSequenceRequest) (w : World) :
  (exists item, In item (items req_list) /\ PrimFloat.ltb (blend_radius item) d0 = true) ->
  solve model_ planning_scene planning_pipeline req_list w
  = (Throw (NegativeBlendRadiusException "All blending radii MUST be non negative"), w)
  /\ generatePlan_calls (snd (solve model_ planning_scene planning_pipeline req_list w))
     = generatePlan_calls w.
Proof.
  intros Hneg.
  assert (Hsolve : solve model_ planning_scene planning_pipeline req_list w
                   = (Throw (NegativeBlendRadiusException
                               "All blending radii MUST be non negative"), w)).
  { pose proof (checkForNegativeRadii_negative req_list Hneg) as Hcheck.
    unfold solve.
    destruct (items req_list) as [|item0 rest].
    - destruct Hneg as (item & Hin & _). destruct Hin.
    - unfold mbind at 1. unfold lift at 1.
      rewrite Hcheck. reflexivity. }
  rewrite Hsolve. split; reflexivity.
Qed.

Lemma solve_negative_radius_witness :
  (exists item,
      In item (items {| items := [sample_item "arm" no_start_state 0.5%float;
                                  sample_item "arm" no_start_state (-1)%float;
                                  sample_item "arm" no_start_state 0%float] |})
      /\ PrimFloat.ltb (blend_radius item) d0 = true)
  /\ fst (solve sample_model sample_scene
            (scripted_pipeline [planned "arm" [(1, 1)]; planned "arm" [(2, 1)];
                                planned "arm" [(3, 1)]]%float)
            {| items := [sample_item "arm" no_start_state 0.5%float;
                         sample_item "arm" no_start_state (-1)%float;
                         sample_item "arm" no_start_state 0%float] |} sample_world)
     = Throw (NegativeBlendRadiusException "All blending radii MUST be non negative").
Proof.
  assert (H : exists item,
             In item (items {| items := [sample_item "arm" no_start_state 0.5%float;
                                         sample_item "arm" no_start_state (-1)%float;
                                         sample_item "arm" no_start_state 0%float] |})
             /\ PrimFloat.ltb (blend_radius item) d0 = true).
  { exists (sample_item "arm" no_start_state (-1)%float).
    split; [right; left; reflexivity | reflexivity]. }
  split; [exact H|].
  destruct (solve_negative_radius sample_model sample_scene
              (scripted_pipeline [planned "arm" [(1, 1)]; planned "arm" [(2, 1)];
                                  planned "arm" [(3, 1)]]%float)
              _ sample_world H) as [Hsolve _].
  rewrite Hsolve. reflexivity.
Defined.

(** ** SequenceValidator: start states *)

Lemma start_state_empty_false (item : MotionSequenceItem) :
  start_state_empty item = false <-> has_explicit_start_state item.
Proof.
  unfold start_state_empty, has_explicit_start_state.
  destruct (position _), (velocity _), (effort _), (name _); split;
    try discriminate; try reflexivity;
    try (intros _; (left; discriminate) || (right; left; discriminate)
                   || (right; right; left; discriminate)
                   || (right; right; right; discriminate)).
  intros [H|[H|[H|H]]]; contradiction.
Qed.

Lemma start_state_empty_true (item : MotionSequenceItem) :
  start_state_empty item = true <-> ~ has_explicit_start_state item.
Proof.
  rewrite <- start_state_empty_false.
  destruct (start_state_empty item); split; congruence.
Qed.

Lemma checkStartStatesOfGroup_loop_result req_items group first_elem :
  checkStartStatesOfGroup_loop req_items group first_elem = Ok tt
  \/ exists what,
       checkStartStatesOfGroup_loop req_items group first_elem
       = Throw (StartStateSetException what).
Proof.
  revert first_elem. induction req_items as [|item rest IH]; intros first_elem; cbn.
  - left; reflexivity.
  - destruct (negb (String.eqb (group_name (req item)) group)); [apply IH|].
    destruct first_elem; [apply IH|].
    destruct (negb (start_state_empty item)); [right; eexists; reflexivity | apply IH].
Qed.

(** Once the first element of the group has been seen, every further element
    of the group must come without a start state. *)
Lemma checkStartStatesOfGroup_loop_later req_items group :
  checkStartStatesOfGroup_loop req_items group false = Ok tt <->
  forall (j : nat) item_j,
    req_items !! j = Some item_j -> group_name (req item_j) = group ->
    start_state_empty item_j = true.
Proof.
  induction req_items as [|item rest IH]; cbn.
  - split; [intros _ j item_j H; discriminate | reflexivity].
  - destruct (String.eqb_spec (group_name (req item)) group) as [Heq|Hne]; cbn [negb].
    + destruct (start_state_empty item) eqn:Hempty; cbn [negb].
      * rewrite IH. split.
        -- intros H [|j] item_j Hj Hg; cbn in Hj.
           ++ injection Hj as <-. exact Hempty.
           ++ exact (H j item_j Hj Hg).
        -- intros H j item_j Hj Hg. exact (H (S j) item_j Hj Hg).
      * split; [discriminate|].
        intros H. specialize (H 0%nat item eq_refl Heq). congruence.
    + rewrite IH. split.
      * intros H [|j] item_j Hj Hg; cbn in Hj.
        -- injection Hj as <-. contradiction.
        -- exact (H j item_j Hj Hg).
      * intros H j item_j Hj Hg. exact (H (S j) item_j Hj Hg).
Qed.

Lemma checkStartStatesOfGroup_ok req_list group :
  checkStartStatesOfGroup req_list group = Ok tt <->
  forall (i j : nat) item_i item_j,
    (i < j)%nat ->
    items req_list !! i = Some item_i -> items req_list !! j = Some item_j ->
    group_name (req item_i) = group -> group_name (req item_j) = group ->
    start_state_empty item_j = true.
Proof.
  unfold checkStartStatesOfGroup.
  induction (items req_list) as [|item rest IH]; cbn.
  - split; [intros _ i j item_i item_j _ H; discriminate | reflexivity].
  - destruct (String.eqb_spec (group_name (req item)) group) as [Heq|Hne]; cbn [negb].
    + rewrite checkStartStatesOfGroup_loop_later. split.
      * intros H i [|j] item_i item_j Hij Hi Hj Hgi Hgj; [lia|].
        cbn in Hj. exact (H j item_j Hj Hgj).
      * intros H j item_j Hj Hgj.
        exact (H 0%nat (S j) item item_j ltac:(lia) eq_refl Hj Heq Hgj).
    + rewrite IH. split.
      * intros H [|i] [|j] item_i item_j Hij Hi Hj Hgi Hgj; try lia.
        -- cbn in Hi. injection Hi as <-. contradiction.
        -- cbn in Hi, Hj. exact (H i j item_i item_j ltac:(lia) Hi Hj Hgi Hgj).
      * intros H i j item_i item_j Hij Hi Hj Hgi Hgj.
        exact (H (S i) (S j) item_i item_j ltac:(lia) Hi Hj Hgi Hgj).
Qed.

Lemma checkStartStates_loop_result req_list group_names :
  checkStartStates_loop req_list group_names = Ok tt
  \/ exists what,
       checkStartStates_loop req_list group_names = Throw (StartStateSetException what).
Proof.
  induction group_names as [|g rest IH]; cbn.
  - left; reflexivity.
  - destruct (checkStartStatesOfGroup_loop_result (items req_list) g true)
      as [Hok | (what & Hthrow)]; unfold checkStartStatesOfGroup.
    + rewrite Hok. cbn. exact IH.
    + rewrite Hthrow. cbn. right. eexists; reflexivity.
Qed.

Lemma checkStartStates_loop_ok req_list group_names :
  checkStartStates_loop req_list group_names = Ok tt <->
  forall g, In g group_names -> checkStartStatesOfGroup req_list g = Ok tt.
Proof.
  induction group_names as [|g rest IH]; cbn.
  - split; [intros _ g [] | reflexivity].
  - destruct (checkStartStatesOfGroup_loop_result (items req_list) g true)
      as [Hok | (what & Hthrow)]; unfold checkStartStatesOfGroup in *.
    + rewrite Hok. cbn. rewrite IH. split.
      * intros H g' [<-|Hin]; [exact Hok | exact (H g' Hin)].
      * intros H g' Hin. apply H. right; exact Hin.
    + rewrite Hthrow. cbn. split; [discriminate|].
      intros H. specialize (H g (or_introl eq_refl)). congruence.
Qed.

Lemma getGroupNames_complete req_list item :
  In item (items req_list) -> In (group_name (req item)) (getGroupNames req_list).
Proof.
  unfold getGroupNames.
  set (f := fun (group_names : list string) (it : MotionSequenceItem) =>
              if existsb (String.eqb (group_name (req it))) group_names
              then group_names else group_names ++ [group_name (req it)]).
  assert (Hkeep : forall l acc g, In g acc -> In g (fold_left f l acc)).
  { induction l as [|it l IHl]; intros acc g Hg; cbn; [exact Hg|].
    apply IHl. unfold f. destruct (existsb _ acc); [exact Hg|].
    apply in_or_app. left; exact Hg. }
  generalize (@nil string).
  induction (items req_list) as [|it l IHl]; intros acc Hin; [destruct Hin|].
  destruct Hin as [->|Hin]; cbn.
  - apply Hkeep. unfold f.
    destruct (existsb (String.eqb (group_name (req item))) acc) eqn:Hex.
    + apply existsb_exists in Hex as (g & Hg & Heq).
      apply String.eqb_eq in Heq. rewrite Heq. exact Hg.
    + apply in_or_app. right. left. reflexivity.
  - apply IHl. exact Hin.
Qed.

Lemma checkForNegativeRadii_ok (req_list : MotionSequenceRequest) :
  (forall item, In item (items req_list) -> PrimFloat.leb d0 (blend_radius item) = true) ->
  checkForNegativeRadii req_list = Ok tt.
Proof.
  intros H. unfold checkForNegativeRadii.
  assert (Hall : forallb (fun r => PrimFloat.leb d0 (blend_radius r)) (items req_list) = true)
    by (apply forallb_forall; exact H).
  rewrite Hall. reflexivity.
Qed.

Lemma checkLastBlendRadiusZero_ok (req_list : MotionSequenceRequest) :
  items req_list <> [] ->
  (forall back, last (items req_list) = Some back ->
                PrimFloat.eqb (blend_radius back) d0 = true) ->
  checkLastBlendRadiusZero req_list = Ok tt.
Proof.
  intros Hne H. unfold checkLastBlendRadiusZero.
  destruct (last (items req_list)) as [back|] eqn:Hlast.
  - rewrite (H back eq_refl). reflexivity.
  - apply last_None in Hlast. contradiction.
Qed.

Lemma checkStartStates_conflict (req_list : MotionSequenceRequest) :
  (2 <= length (items req_list))%nat ->
  start_state_conflict (items req_list) ->
  exists what, checkStartStates req_list = Throw (StartStateSetException what).
Proof.
  intros Hlen (i & j & item_i & item_j & Hij & Hi & Hj & Hgroup & Hexplicit).
  unfold checkStartStates, size.
  destruct (Z.leb_spec (Z.of_nat (length (items req_list))) 1) as [Hle|_]; [lia|].
  destruct (checkStartStates_loop_result req_list (getGroupNames req_list))
    as [Hok | Hthrow]; [|exact Hthrow].
  exfalso.
  rewrite checkStartStates_loop_ok in Hok.
  assert (Hin : In (group_name (req item_j)) (getGroupNames req_list)).
  { apply getGroupNames_complete. apply list_elem_of_In.
    apply (list_elem_of_lookup_2 _ j). exact Hj. }
  specialize (Hok _ Hin). rewrite checkStartStatesOfGroup_ok in Hok.
  specialize (Hok i j item_i item_j Hij Hi Hj Hgroup eq_refl).
  apply start_state_empty_true in Hok. contradiction.
Qed.

Lemma checkStartStates_no_conflict (req_list : MotionSequenceRequest) :
  ~ start_state_conflict (items req_list) ->
  checkStartStates req_list = Ok tt.
Proof.
  intros Hnone. unfold checkStartStates.
  destruct (size (items req_list) <=? 1); [reflexivity|].
  apply checkStartStates_loop_ok. intros g _.
  apply checkStartStatesOfGroup_ok.
  intros i j item_i item_j Hij Hi Hj Hgi Hgj.
  apply start_state_empty_true. intros Hexplicit. apply Hnone.
  exists i, j, item_i, item_j. repeat split; try assumption. congruence.
Qed.

(** C9 (as amended): for a request list of length >= 2, if some occurrence of
    a group other than its first one has a non-empty explicit start state, the
    start-state check fails with [StartStateSetException], and so does
    [solve], without touching the world, whenever the two radius checks that
    run before it pass (no negative radius, last radius zero); if for every
    group only its first occurrence has an explicit start state, the
    start-state check passes. *)
Theorem checkStartStates_first_occurrence_only (model_ : RobotModel)
    (planning_scene : PlanningScene) (planning_pipeline : PlanningPipeline)
    (req_list : MotionSequenceRequest) (w : World) :
  (2 <= length (items req_list))%nat ->
  (start_state_conflict (items req_list) ->
     (exists what, checkStartStates req_list = Throw (StartStateSetException what))
     /\ ((forall item, In item (items req_list) ->
                       PrimFloat.leb d0 (blend_radius item) = true) ->
         (forall back, last (items req_list) = Some back ->
                       PrimFloat.eqb (blend_radius back) d0 = true) ->
         exists what,
           solve model_ planning_scene planning_pipeline req_list w
           = (Throw (StartStateSetException what), w)))
  /\ (~ start_state_conflict (items req_list) -> checkStartStates req_list = Ok tt).
Proof.
  intros Hlen. split; [|apply checkStartStates_no_conflict].
  intros Hconflict.
  destruct (checkStartStates_conflict req_list Hlen Hconflict) as (what & Hcheck).
  split; [exists what; exact Hcheck|].
  intros Hnonneg Hlast. exists what.
  assert (Hne : items req_list <> []).
  { intros Hnil. rewrite Hnil in Hlen. cbn in Hlen. lia. }
  pose proof (checkForNegativeRadii_ok req_list Hnonneg) as Hneg.
  pose proof (checkLastBlendRadiusZero_ok req_list Hne Hlast) as Hzero.
  unfold solve. destruct (items req_list) as [|item0 rest]; [contradiction|].
  unfold mbind, lift. rewrite Hneg, Hzero, Hcheck. reflexivity.
Qed.

Lemma checkStartStates_first_occurrence_only_witness :
  (2 <= length (items {| items := [sample_item "arm" no_start_state 0.5%float;
                                   sample_item "arm" some_start_state 0%float] |}))%nat
  /\ start_state_conflict [sample_item "arm" no_start_state 0.5%float;
                           sample_item "arm" some_start_state 0%float]
  /\ exists what,
       solve sample_model sample_scene
         (scripted_pipeline [planned "arm" [(1, 1)]; planned "arm" [(2, 1)]]%float)
         {| items := [sample_item "arm" no_start_state 0.5%float;
                      sample_item "arm" some_start_state 0%float] |} sample_world
       = (Throw (StartStateSetException what), sample_world).
Proof.
  assert (Hlen : (2 <= length (items {| items := [sample_item "arm" no_start_state 0.5%float;
                                   sample_item "arm" some_start_state 0%float] |}))%nat)
    by (cbn; lia).
  assert (Hconflict : start_state_conflict
                        [sample_item "arm" no_start_state 0.5%float;
                         sample_item "arm" some_start_state 0%float]).
  { exists 0%nat, 1%nat, (sample_item "arm" no_start_state 0.5%float),
      (sample_item "arm" some_start_state 0%float).
    repeat split; try reflexivity; [lia|]. left. discriminate. }
  split; [exact Hlen|]. split; [exact Hconflict|].
  destruct (checkStartStates_first_occurrence_only sample_model sample_scene
              (scripted_pipeline [planned "arm" [(1, 1)]; planned "arm" [(2, 1)]]%float)
              {| items := [sample_item "arm" no_start_state 0.5%float;
                           sample_item "arm" some_start_state 0%float] |}
              sample_world Hlen) as [Hthrows _].
  destruct (Hthrows Hconflict) as [_ Hsolve].
  apply Hsolve.
  - intros item [<-|[<-|[]]]; reflexivity.
  - intros back Hback. cbn in Hback. injection Hback as <-. reflexivity.
Defined.

(** C9 (as stated) fails when an earlier check rejects the list first: here
    the second "arm" item carries an explicit start state, yet [solve] fails
    with [NegativeBlendRadiusException], because the first radius is
    negative. *)
Lemma solve_start_state_conflict_counterexample :
  (2 <= length [sample_item "arm" no_start_state (-1)%float;
                sample_item "arm" some_start_state 0%float])%nat
  /\ start_state_conflict [sample_item "arm" no_start_state (-1)%float;
                           sample_item "arm" some_start_state 0%float]
  /\ fst (solve sample_model sample_scene
            (scripted_pipeline [planned "arm" [(1, 1)]; planned "arm" [(2, 1)]]%float)
            {| items := [sample_item "arm" no_start_state (-1)%float;
                         sample_item "arm" some_start_state 0%float] |} sample_world)
     = Throw (NegativeBlendRadiusException "All blending radii MUST be non negative").
Proof.
  split; [cbn; lia|]. split; [|reflexivity].
  exists 0%nat, 1%nat, (sample_item "arm" no_start_state (-1)%float),
    (sample_item "arm" some_start_state 0%float).
  repeat split; try reflexivity; [lia|]. left. discriminate.
Qed.

(** ** The de-duplication loop raises no exception *)

Lemma for_size_t_no_throw {St : Type} (bound : St -> Z) (body : Z -> St -> Result St) :
  (forall i s e, body i s <> Throw e) ->
  forall fuel i s e, for_size_t fuel i bound body s <> Throw e.
Proof.
  intros Hbody. induction fuel as [|fuel IH]; intros i s e; cbn [for_size_t].
  - discriminate.
  - destruct (i <? bound s); [|discriminate].
    destruct (body i s) as [s'| e' | |] eqn:Hb; cbn [rbind]; try discriminate.
    + apply IH.
    + exfalso. exact (Hbody i s e' Hb).
Qed.

Lemma solve_dedup_body_no_throw (i : Z) (traj : RobotTrajectory) (e : Exception) :
  solve_dedup_body i traj <> Throw e.
Proof.
  unfold solve_dedup_body, getWayPointDurationFromStart, removeWayPoint.
  destruct (i <? 0); [discriminate|].
  destruct (way_points traj !! Z.to_nat i); [|discriminate]. cbn [rbind].
  destruct (i + 1 <? 0); [discriminate|].
  destruct (way_points traj !! Z.to_nat (i + 1)); [|discriminate]. cbn [rbind].
  destruct (PrimFloat.eqb _ _); [|discriminate].
  destruct (i + 1 <? size (way_points traj)); discriminate.
Qed.

Lemma solve_dedup_no_throw (traj : RobotTrajectory) (e : Exception) :
  solve_dedup traj <> Throw e.
Proof.
  unfold solve_dedup. apply for_size_t_no_throw. apply solve_dedup_body_no_throw.
Qed.

(** ** Request lists of length at most one *)

Lemma with_start_state_same (r : MotionPlanRequest) :
  with_start_state r (start_state r) = r.
Proof. destruct r; reflexivity. Qed.

Lemma solve_single_negative model_ planning_scene planning_pipeline item w :
  PrimFloat.leb d0 (blend_radius item) = false ->
  solve model_ planning_scene planning_pipeline {| items := [item] |} w
  = (Throw (NegativeBlendRadiusException "All blending radii MUST be non negative"), w).
Proof.
  intros Hneg. unfold solve, mbind, lift, checkForNegativeRadii. cbn.
  rewrite Hneg. reflexivity.
Qed.

Lemma solve_single_nonzero model_ planning_scene planning_pipeline item w :
  PrimFloat.leb d0 (blend_radius item) = true ->
  PrimFloat.eqb (blend_radius item) d0 = false ->
  solve model_ planning_scene planning_pipeline {| items := [item] |} w
  = (Throw (LastBlendRadiusNotZeroException "The last blending radius must be zero"), w).
Proof.
  intros Hpos Hnz.
  unfold solve, mbind, lift, checkForNegativeRadii, checkLastBlendRadiusZero. cbn.
  rewrite Hpos. cbn. rewrite Hnz. reflexivity.
Qed.

Lemma solve_single_planned model_ planning_scene planning_pipeline item w res :
  PrimFloat.eqb (blend_radius item) d0 = true ->
  planning_pipeline (generatePlan_calls w) planning_scene (req item) = (true, res) ->
  error_code res = SUCCESS ->
  solve model_ planning_scene planning_pipeline {| items := [item] |} w
  = ((traj <- solve_dedup
                (blender_ (plan_comp_builder_ w)
                   [{| entry_scene := planning_scene;
                       entry_trajectory := trajectory res;
                       entry_blend_radius := d0 |}]);
      Ok [traj])%result,
     {| generatePlan_calls := generatePlan_calls w ++ [req item];
        plan_comp_builder_ :=
          {| blender_ := blender_ (plan_comp_builder_ w);
             appended := [{| entry_scene := planning_scene;
                             entry_trajectory := trajectory res;
                             entry_blend_radius := d0 |}] |} |}).
Proof.
  intros Hzero Hplan Hcode.
  pose proof (zero_geq_zero _ Hzero) as Hpos.
  unfold solve, mbind, lift, checkForNegativeRadii, checkLastBlendRadiusZero,
    checkStartStates, solveSequenceItems.
  cbn [items forallb last negb size length Z.of_nat andb].
  rewrite Hpos, Hzero. cbn [negb Z.leb Z.compare Pos.compare Pos.compare_cont].
  cbn [solveSequenceItems_loop mbind lift setStartState getPreviousEndState rev
       getPreviousEndState_scan rbind].
  unfold mbind, lift, generatePlan.
  rewrite with_start_state_same, Hplan. cbn [fst snd].
  rewrite Hcode.
  cbv -[solve_dedup].
  destruct (solve_dedup _); reflexivity.
Qed.

Lemma solve_single_failed model_ planning_scene planning_pipeline item w ok res :
  PrimFloat.eqb (blend_radius item) d0 = true ->
  planning_pipeline (generatePlan_calls w) planning_scene (req item) = (ok, res) ->
  ok = false \/ error_code res <> SUCCESS ->
  exists what val,
    fst (solve model_ planning_scene planning_pipeline {| items := [item] |} w)
    = Throw (PlanningPipelineException what val).
Proof.
  intros Hzero Hplan Hfail.
  pose proof (zero_geq_zero _ Hzero) as Hpos.
  unfold solve, mbind, lift, checkForNegativeRadii, checkLastBlendRadiusZero,
    checkStartStates, solveSequenceItems.
  cbn [items forallb last negb size length Z.of_nat andb].
  rewrite Hpos, Hzero. cbn [negb Z.leb Z.compare Pos.compare Pos.compare_cont].
  cbn [solveSequenceItems_loop mbind lift setStartState getPreviousEndState rev
       getPreviousEndState_scan rbind].
  unfold mbind, lift, generatePlan.
  rewrite with_start_state_same, Hplan. cbn [fst snd].
  destruct ok.
  - destruct Hfail as [Hfalse|Hcode]; [discriminate|].
    apply Z.eqb_neq in Hcode. rewrite Hcode. cbn. eexists _, _. reflexivity.
  - cbn. eexists _, _. reflexivity.
Qed.

(** C4 (as amended): for the empty request list [solve] skips every check and
    returns an empty list without consulting the planner.  For a list of
    exactly one item only the start-state check is skipped, so no
    [StartStateSetException] can be raised; the radius checks still run: a
    radius that is not >= 0 raises [NegativeBlendRadiusException] and a
    nonzero one [LastBlendRadiusNotZeroException].  When the radius is zero
    and the single plan request succeeds, the item's own request is planned,
    exactly one trajectory is appended to the builder, with blend radius 0,
    and at most one assembled trajectory (the de-duplicated one) is
    returned. *)
Theorem solve_short_list (model_ : RobotModel) (planning_scene : PlanningScene)
    (planning_pipeline : PlanningPipeline) (w : World) :
  solve model_ planning_scene planning_pipeline {| items := [] |} w = (Ok [], w)
  /\ forall item,
       checkStartStates {| items := [item] |} = Ok tt
       /\ (forall what,
             fst (solve model_ planning_scene planning_pipeline {| items := [item] |} w)
             <> Throw (StartStateSetException what))
       /\ (PrimFloat.leb d0 (blend_radius item) = false ->
           solve model_ planning_scene planning_pipeline {| items := [item] |} w
           = (Throw (NegativeBlendRadiusException
                       "All blending radii MUST be non negative"), w))
       /\ (PrimFloat.leb d0 (blend_radius item) = true ->
           PrimFloat.eqb (blend_radius item) d0 = false ->
           solve model_ planning_scene planning_pipeline {| items := [item] |} w
           = (Throw (LastBlendRadiusNotZeroException
                       "The last blending radius must be zero"), w))
       /\ (PrimFloat.eqb (blend_radius item) d0 = true ->
           forall res,
             planning_pipeline (generatePlan_calls w) planning_scene (req item)
             = (true, res) ->
             error_code res = SUCCESS ->
             let entry := {| entry_scene := planning_scene;
                             entry_trajectory := trajectory res;
                             entry_blend_radius := d0 |} in
             let merged := blender_ (plan_comp_builder_ w) [entry] in
             let w' := snd (solve model_ planning_scene planning_pipeline
                              {| items := [item] |} w) in
             generatePlan_calls w' = generatePlan_calls w ++ [req item]
             /\ appended (plan_comp_builder_ w') = [entry]
             /\ builder_build (plan_comp_builder_ w') = [merged]
             /\ fst (solve model_ planning_scene planning_pipeline
                       {| items := [item] |} w)
                = (traj <- solve_dedup merged; Ok [traj])%result).
Proof.
  split; [reflexivity|]. intros item.
  split; [reflexivity|].
  split; [|split; [apply solve_single_negative|split; [apply solve_single_nonzero|]]].
  - intros what.
    destruct (PrimFloat.leb d0 (blend_radius item)) eqn:Hpos.
    + destruct (PrimFloat.eqb (blend_radius item) d0) eqn:Hzero.
      * destruct (planning_pipeline (generatePlan_calls w) planning_scene (req item))
          as [ok res] eqn:Hplan.
        destruct ok; [destruct (Z.eq_dec (error_code res) SUCCESS) as [Hcode|Hcode]|].
        -- rewrite (solve_single_planned _ _ _ _ _ _ Hzero Hplan Hcode).
           cbn [fst]. destruct (solve_dedup _) as [traj| e | |] eqn:Hdedup;
             cbn; try discriminate.
           exfalso. exact (solve_dedup_no_throw _ _ Hdedup).
        -- destruct (solve_single_failed model_ _ _ _ _ _ _ Hzero Hplan (or_intror Hcode))
             as (what' & val & Hsolve).
           rewrite Hsolve. discriminate.
        -- destruct (solve_single_failed model_ _ _ _ _ _ _ Hzero Hplan (or_introl eq_refl))
             as (what' & val & Hsolve).
           rewrite Hsolve. discriminate.
      * rewrite (solve_single_nonzero _ _ _ _ _ Hpos Hzero). discriminate.
    + rewrite (solve_single_negative _ _ _ _ _ Hpos). discriminate.
  - intros Hzero res Hplan Hcode.
    rewrite (solve_single_planned _ _ _ _ _ _ Hzero Hplan Hcode).
    repeat split; reflexivity.
Qed.

Lemma solve_short_list_witness :
  PrimFloat.eqb (blend_radius (sample_item "arm" some_start_state 0%float)) d0 = true
  /\ appended (plan_comp_builder_
                 (snd (solve sample_model sample_scene arm_only_pipeline
                         {| items := [sample_item "arm" some_start_state 0%float] |}
                         sample_world)))
     = [{| entry_scene := sample_scene;
           entry_trajectory := sample_trajectory "arm" [(0, 0); (1, 1)]%float;
           entry_blend_radius := d0 |}].
Proof.
  split; [reflexivity|].
  destruct (solve_short_list sample_model sample_scene arm_only_pipeline sample_world)
    as [_ Hsingle].
  destruct (Hsingle (sample_item "arm" some_start_state 0%float))
    as (_ & _ & _ & _ & Hplanned).
  destruct (Hplanned eq_refl (snd (planned "arm" [(0, 0); (1, 1)]%float))
              eq_refl eq_refl) as (_ & Happended & _).
  exact Happended.
Defined.

(** C4 (as stated) fails for a single item whose radius is negative: the
    radius check is not skipped. *)
Lemma solve_single_item_counterexample :
  (length (items {| items := [sample_item "arm" no_start_state (-1)%float] |}) <= 1)%nat
  /\ fst (solve sample_model sample_scene (scripted_pipeline [planned "arm" [(1, 1)]%float])
            {| items := [sample_item "arm" no_start_state (-1)%float] |} sample_world)
     = Throw (NegativeBlendRadiusException "All blending radii MUST be non negative").
Proof.
  split; [cbn; lia | reflexivity].
Qed.

(** ** SequencePlanner *)

Lemma solveSequenceItems_loop_app planning_scene planning_pipeline
    (pre rest : list MotionSequenceItem) :
  forall (motion_plan_responses : list MotionPlanResponse) (w : World),
    solveSequenceItems_loop planning_scene planning_pipeline (pre ++ rest)
      motion_plan_responses w
    = match solveSequenceItems_loop planning_scene planning_pipeline pre
              motion_plan_responses w with
      | (Ok responses, w') =>
          solveSequenceItems_loop planning_scene planning_pipeline rest responses w'
      | failed => failed
      end.
Proof.
  induction pre as [|seq_item pre IH]; intros responses w; [reflexivity|].
  cbn [app solveSequenceItems_loop]. unfold mbind, lift, generatePlan.
  destruct (setStartState responses _ _) as [start| e | |]; try reflexivity.
  destruct (negb _); [reflexivity|].
  apply IH.
Qed.

(** What one iteration does once the start state is resolved and the planner
    has answered. *)
Lemma solveSequenceItems_loop_step (planning_scene : PlanningScene)
    (planning_pipeline : PlanningPipeline) (seq_item : MotionSequenceItem)
    (rest : list MotionSequenceItem) (motion_plan_responses : list MotionPlanResponse)
    (w : World) (start : RobotStateMsg) :
  setStartState motion_plan_responses (group_name (req seq_item))
    (start_state (req seq_item)) = Ok start ->
  let request := with_start_state (req seq_item) start in
  let answer := planning_pipeline (generatePlan_calls w) planning_scene request in
  let res := if fst answer then snd answer else with_error_code (snd answer) FAILURE in
  let w1 := {| generatePlan_calls := generatePlan_calls w ++ [request];
               plan_comp_builder_ := plan_comp_builder_ w |} in
  solveSequenceItems_loop planning_scene planning_pipeline (seq_item :: rest)
    motion_plan_responses w
  = if negb (error_code res =? SUCCESS)
    then (Throw (PlanningPipelineException ("Could not solve request" ++ newline)
                   (error_code res)), w1)
    else solveSequenceItems_loop planning_scene planning_pipeline rest
           (motion_plan_responses ++ [res]) w1.
Proof.
  intros Hstart. cbn zeta.
  cbn [solveSequenceItems_loop]. unfold mbind, lift, generatePlan.
  rewrite Hstart.
  destruct (negb _); reflexivity.
Qed.

(** C3 (as amended): if the items before position k were solved and the
    planner reports failure (returns false, or a response whose code is not
    SUCCESS) for the item at position k, [solveSequenceItems] stops there and
    raises [PlanningPipelineException].  The exception carries a fixed
    message and an error code, the response's code when the planner returned
    true and FAILURE when it returned false; it does not carry the index k.
    No response list is returned, and the planner is not consulted for any
    later item. *)
Theorem solveSequenceItems_fail_fast (planning_scene : PlanningScene)
    (planning_pipeline : PlanningPipeline)
    (pre : list MotionSequenceItem) (seq_item : MotionSequenceItem)
    (post : list MotionSequenceItem) (w w_k : World)
    (responses : list MotionPlanResponse) (start : RobotStateMsg)
    (ok : bool) (res : MotionPlanResponse) :
  solveSequenceItems planning_scene planning_pipeline {| items := pre |} w
  = (Ok responses, w_k) ->
  setStartState responses (group_name (req seq_item)) (start_state (req seq_item))
  = Ok start ->
  planning_pipeline (generatePlan_calls w_k) planning_scene
    (with_start_state (req seq_item) start) = (ok, res) ->
  ok = false \/ error_code res <> SUCCESS ->
  solveSequenceItems planning_scene planning_pipeline
    {| items := pre ++ seq_item :: post |} w
  = (Throw (PlanningPipelineException ("Could not solve request" ++ newline)
              (if ok then error_code res else FAILURE)),
     {| generatePlan_calls :=
          generatePlan_calls w_k ++ [with_start_state (req seq_item) start];
        plan_comp_builder_ := plan_comp_builder_ w_k |}).
Proof.
  unfold solveSequenceItems. cbn [items].
  intros Hpre Hstart Hplan Hfail.
  rewrite solveSequenceItems_loop_app, Hpre.
  rewrite (solveSequenceItems_loop_step _ _ _ _ _ _ _ Hstart).
  rewrite Hplan. cbn [fst snd].
  destruct ok.
  - destruct Hfail as [Hfalse|Hcode]; [discriminate|].
    apply Z.eqb_neq in Hcode. rewrite Hcode. reflexivity.
  - reflexivity.
Qed.

Lemma solveSequenceItems_fail_fast_witness :
  fst (arm_only_pipeline
         [with_start_state (req (sample_item "arm" no_start_state 0%float)) no_start_state]
         sample_scene
         (with_start_state (req (sample_item "gripper" no_start_state 0%float))
            no_start_state)) = false
  /\ solveSequenceItems sample_scene arm_only_pipeline
       {| items := [sample_item "arm" no_start_state 0%float]
                   ++ sample_item "gripper" no_start_state 0%float
                   :: [sample_item "arm" no_start_state 0%float] |} sample_world
     = (Throw (PlanningPipelineException ("Could not solve request" ++ newline) FAILURE),
        {| generatePlan_calls :=
             [with_start_state (req (sample_item "arm" no_start_state 0%float))
                no_start_state;
              with_start_state (req (sample_item "gripper" no_start_state 0%float))
                no_start_state];
           plan_comp_builder_ := plan_comp_builder_ sample_world |}).
Proof.
  split; [reflexivity|].
  apply (solveSequenceItems_fail_fast sample_scene arm_only_pipeline
           [sample_item "arm" no_start_state 0%float]
           (sample_item "gripper" no_start_state 0%float)
           [sample_item "arm" no_start_state 0%float]
           sample_world
           {| generatePlan_calls :=
                [with_start_state (req (sample_item "arm" no_start_state 0%float))
                   no_start_state];
              plan_comp_builder_ := plan_comp_builder_ sample_world |}
           [snd (planned "arm" [(0, 0); (1, 1)]%float)]
           no_start_state false
           {| trajectory := no_trajectory; error_code := -1 |}).
  - reflexivity.
  - reflexivity.
  - reflexivity.
  - left. reflexivity.
Defined.

(** C3 (as stated) fails on what the exception carries: the same planner
    fails at position 0 of one list and at position 1 of another, and both
    runs raise the very same exception, so the failing index is not in it;
    and its code is FAILURE although the planner's response said -1. *)
Lemma solveSequenceItems_index_counterexample :
  fst (solveSequenceItems sample_scene arm_only_pipeline
         {| items := [sample_item "gripper" no_start_state 0%float] |} sample_world)
  = Throw (PlanningPipelineException ("Could not solve request" ++ newline) FAILURE)
  /\ fst (solveSequenceItems sample_scene arm_only_pipeline
            {| items := [sample_item "arm" no_start_state 0%float;
                         sample_item "gripper" no_start_state 0%float] |} sample_world)
     = Throw (PlanningPipelineException ("Could not solve request" ++ newline) FAILURE)
  /\ error_code (snd (arm_only_pipeline [] sample_scene
                        (req (sample_item "gripper" no_start_state 0%float)))) = -1
  /\ FAILURE <> -1.
Proof.
  repeat split; try reflexivity. discriminate.
Qed.

(** *** Start states *)

Lemma getPreviousEndState_scan_skip (skipped rest : list MotionPlanResponse)
    (group : string) :
  (forall resp, In resp skipped -> getGroupName (trajectory resp) <> group) ->
  getPreviousEndState_scan (skipped ++ rest) group
  = getPreviousEndState_scan rest group.
Proof.
  induction skipped as [|resp skipped IH]; intros Hother; [reflexivity|].
  cbn [app getPreviousEndState_scan].
  destruct (String.eqb_spec (getGroupName (trajectory resp)) group) as [Heq|_].
  - exfalso. exact (Hother resp (or_introl eq_refl) Heq).
  - apply IH. intros resp' Hin. apply Hother. right; exact Hin.
Qed.

Lemma getPreviousEndState_none (motion_plan_responses : list MotionPlanResponse)
    (group : string) :
  (forall resp, In resp motion_plan_responses ->
                getGroupName (trajectory resp) <> group) ->
  getPreviousEndState motion_plan_responses group = Ok None.
Proof.
  intros Hother. unfold getPreviousEndState.
  rewrite <- (app_nil_r (rev motion_plan_responses)).
  rewrite getPreviousEndState_scan_skip; [reflexivity|].
  intros resp Hin. apply Hother. apply in_rev. exact Hin.
Qed.

Lemma getPreviousEndState_most_recent (motion_plan_responses : list MotionPlanResponse)
    (group : string) (k : nat) (resp : MotionPlanResponse) :
  motion_plan_responses !! k = Some resp ->
  getGroupName (trajectory resp) = group ->
  (forall (k' : nat) resp',
      (k < k')%nat -> motion_plan_responses !! k' = Some resp' ->
      getGroupName (trajectory resp') <> group) ->
  getPreviousEndState motion_plan_responses group
  = (last_way_point <- getLastWayPoint (trajectory resp); Ok (Some last_way_point))%result.
Proof.
  intros Hk Hgroup Hlater. unfold getPreviousEndState.
  rewrite <- (take_drop_middle _ _ _ Hk).
  rewrite rev_app_distr. cbn [rev]. rewrite <- app_assoc.
  rewrite getPreviousEndState_scan_skip.
  - cbn [app getPreviousEndState_scan].
    destruct (String.eqb_spec (getGroupName (trajectory resp)) group); [reflexivity|].
    contradiction.
  - intros resp' Hin. apply in_rev in Hin.
    apply list_elem_of_In, list_elem_of_lookup in Hin as (i & Hi).
    rewrite lookup_drop in Hi.
    apply (Hlater (S k + i)%nat resp'); [lia | exact Hi].
Qed.

Lemma solveSequenceItems_loop_calls planning_scene planning_pipeline
    (seq_items : list MotionSequenceItem) :
  forall (motion_plan_responses : list MotionPlanResponse) (w : World),
  exists more,
    generatePlan_calls
      (snd (solveSequenceItems_loop planning_scene planning_pipeline seq_items
              motion_plan_responses w))
    = generatePlan_calls w ++ more.
Proof.
  induction seq_items as [|seq_item rest IH]; intros responses w.
  - exists []. cbn. rewrite app_nil_r. reflexivity.
  - cbn [solveSequenceItems_loop]. unfold mbind, lift, generatePlan.
    destruct (setStartState responses _ _) as [start| e | |];
      try (exists []; cbn; rewrite app_nil_r; reflexivity).
    destruct (negb _).
    + eexists. cbn. reflexivity.
    + match goal with
      | |- context [solveSequenceItems_loop _ _ rest ?acc ?w1] =>
          destruct (IH acc w1) as (more & Hmore)
      end.
      rewrite Hmore. cbn [generatePlan_calls]. rewrite <- app_assoc.
      eexists. reflexivity.
Qed.

(** The request handed to the planner for [seq_item], given the responses
    gathered so far, is the next entry of the planner's call history. *)
Lemma solveSequenceItems_loop_next_call (planning_scene : PlanningScene)
    (planning_pipeline : PlanningPipeline) (seq_item : MotionSequenceItem)
    (rest : list MotionSequenceItem) (motion_plan_responses : list MotionPlanResponse)
    (w : World) (start : RobotStateMsg) :
  setStartState motion_plan_responses (group_name (req seq_item))
    (start_state (req seq_item)) = Ok start ->
  generatePlan_calls
    (snd (solveSequenceItems_loop planning_scene planning_pipeline (seq_item :: rest)
            motion_plan_responses w))
  !! length (generatePlan_calls w)
  = Some (with_start_state (req seq_item) start).
Proof.
  intros Hstart.
  rewrite (solveSequenceItems_loop_step _ _ _ _ _ _ _ Hstart).
  destruct (negb _).
  - cbn [snd generatePlan_calls]. apply list_lookup_middle. reflexivity.
  - match goal with
    | |- context [solveSequenceItems_loop _ _ rest ?acc ?w1] =>
        destruct (solveSequenceItems_loop_calls planning_scene planning_pipeline
                    rest acc w1) as (more & Hmore)
    end.
    rewrite Hmore. cbn [generatePlan_calls]. rewrite <- app_assoc.
    apply list_lookup_middle. reflexivity.
Qed.

Lemma solveSequenceItems_loop_start_state (planning_scene : PlanningScene)
    (planning_pipeline : PlanningPipeline) (seq_item : MotionSequenceItem)
    (rest : list MotionSequenceItem)
    (motion_plan_responses : list MotionPlanResponse) (w : World) :
  (forall (k : nat) resp final,
      motion_plan_responses !! k = Some resp ->
      getGroupName (trajectory resp) = group_name (req seq_item) ->
      (forall (k' : nat) resp',
          (k < k')%nat -> motion_plan_responses !! k' = Some resp' ->
          getGroupName (trajectory resp') <> group_name (req seq_item)) ->
      last (way_points (trajectory resp)) = Some final ->
      generatePlan_calls
        (snd (solveSequenceItems_loop planning_scene planning_pipeline
                (seq_item :: rest) motion_plan_responses w))
      !! length (generatePlan_calls w)
      = Some {| group_name := group_name (req seq_item);
                start_state := as_message (way_point final);
                goal_constraints := goal_constraints (req seq_item) |})
  /\ ((forall resp, In resp motion_plan_responses ->
                    getGroupName (trajectory resp) <> group_name (req seq_item)) ->
      generatePlan_calls
        (snd (solveSequenceItems_loop planning_scene planning_pipeline
                (seq_item :: rest) motion_plan_responses w))
      !! length (generatePlan_calls w)
      = Some (req seq_item)).
Proof.
  split.
  - intros k resp final Hk Hgroup Hlater Hfinal.
    apply (solveSequenceItems_loop_next_call _ _ _ _ _ _
             (as_message (way_point final))).
    unfold setStartState.
    rewrite (getPreviousEndState_most_recent _ _ k resp Hk Hgroup Hlater).
    unfold getLastWayPoint. rewrite Hfinal. reflexivity.
  - intros Hother.
    replace (Some (req seq_item))
      with (Some (with_start_state (req seq_item) (start_state (req seq_item))))
      by (rewrite with_start_state_same; reflexivity).
    apply solveSequenceItems_loop_next_call.
    unfold setStartState. rewrite (getPreviousEndState_none _ _ Hother). reflexivity.
Qed.

(** C5: let the items before [seq_item] be solved, with responses
    [responses].  The request then handed to the planner for [seq_item] (the
    next entry of the planner's call history) is the item's request with its
    start state replaced by the final waypoint of the most recent response of
    the same group, when there is one; when no response so far belongs to the
    item's group, it is the item's request unchanged. *)
Theorem solveSequenceItems_start_state (planning_scene : PlanningScene)
    (planning_pipeline : PlanningPipeline) (pre : list MotionSequenceItem)
    (seq_item : MotionSequenceItem) (rest : list MotionSequenceItem)
    (w w_k : World) (responses : list MotionPlanResponse) :
  solveSequenceItems planning_scene planning_pipeline {| items := pre |} w
  = (Ok responses, w_k) ->
  (forall (k : nat) resp final,
      responses !! k = Some resp ->
      getGroupName (trajectory resp) = group_name (req seq_item) ->
      (forall (k' : nat) resp',
          (k < k')%nat -> responses !! k' = Some resp' ->
          getGroupName (trajectory resp') <> group_name (req seq_item)) ->
      last (way_points (trajectory resp)) = Some final ->
      generatePlan_calls
        (snd (solveSequenceItems planning_scene planning_pipeline
                {| items := pre ++ seq_item :: rest |} w))
      !! length (generatePlan_calls w_k)
      = Some {| group_name := group_name (req seq_item);
                start_state := as_message (way_point final);
                goal_constraints := goal_constraints (req seq_item) |})
  /\ ((forall resp, In resp responses ->
                    getGroupName (trajectory resp) <> group_name (req seq_item)) ->
      generatePlan_calls
        (snd (solveSequenceItems planning_scene planning_pipeline
                {| items := pre ++ seq_item :: rest |} w))
      !! length (generatePlan_calls w_k)
      = Some (req seq_item)).
Proof.
  unfold solveSequenceItems. cbn [items]. intros Hpre.
  rewrite solveSequenceItems_loop_app, Hpre.
  apply solveSequenceItems_loop_start_state.
Qed.

Lemma solveSequenceItems_start_state_witness :
  solveSequenceItems sample_scene arm_only_pipeline
    {| items := [sample_item "arm" some_start_state 0.5%float] |} sample_world
  = (Ok [snd (planned "arm" [(0, 0); (1, 1)]%float)],
     {| generatePlan_calls := [req (sample_item "arm" some_start_state 0.5%float)];
        plan_comp_builder_ := plan_comp_builder_ sample_world |})
  /\ generatePlan_calls
       (snd (solveSequenceItems sample_scene arm_only_pipeline
               {| items := [sample_item "arm" some_start_state 0.5%float]
                           ++ sample_item "arm" no_start_state 0%float :: [] |}
               sample_world))
     !! 1%nat
     = Some {| group_name := "arm";
               start_state := as_message (sample_state 1%float d0 d0);
               goal_constraints := [] |}.
Proof.
  assert (Hpre : solveSequenceItems sample_scene arm_only_pipeline
                   {| items := [sample_item "arm" some_start_state 0.5%float] |}
                   sample_world
                 = (Ok [snd (planned "arm" [(0, 0); (1, 1)]%float)],
                    {| generatePlan_calls :=
                         [req (sample_item "arm" some_start_state 0.5%float)];
                       plan_comp_builder_ := plan_comp_builder_ sample_world |}))
    by reflexivity.
  split; [exact Hpre|].
  destruct (solveSequenceItems_start_state sample_scene arm_only_pipeline
              [sample_item "arm" some_start_state 0.5%float]
              (sample_item "arm" no_start_state 0%float) [] _ _ _ Hpre)
    as [Hrecent _].
  apply (Hrecent 0%nat (snd (planned "arm" [(0, 0); (1, 1)]%float))
           {| way_point := sample_state 1%float d0 d0; duration_from_start := 1%float |}).
  - reflexivity.
  - reflexivity.
  - intros k' resp' Hk' Hlookup. destruct k' as [|k']; [lia|]. discriminate.
  - reflexivity.
Defined.

(** ** OverlapDetector *)

Lemma getLastWayPoint_defined (traj : RobotTrajectory) :
  way_points traj <> [] ->
  exists final, last (way_points traj) = Some final
                /\ getLastWayPoint traj = Ok (way_point final).
Proof.
  intros Hne. unfold getLastWayPoint.
  destruct (last (way_points traj)) as [final|] eqn:Hlast.
  - exists final. split; reflexivity.
  - apply last_None in Hlast. contradiction.
Qed.

Section OverlapDetector.
Variable model_ : RobotModel.
Variable resp_cont : list MotionPlanResponse.
Variable radii : list double.
Hypothesis radii_long_enough : (length resp_cont - 1 <= length radii)%nat.
Hypothesis responses_have_way_points : Forall has_way_points resp_cont.

(** One iteration: it throws, naming [i], exactly when the pair overlaps. *)
Lemma checkForOverlappingRadii_body_cases (i : nat) :
  (S (S i) < length resp_cont)%nat ->
  (overlaps_at model_ resp_cont radii i
   /\ checkForOverlappingRadii_body model_ resp_cont radii (Z.of_nat i) tt
      = Throw (OverlappingBlendRadiiException (overlap_message (Z.of_nat i))))
  \/ (~ overlaps_at model_ resp_cont radii i
      /\ checkForOverlappingRadii_body model_ resp_cont radii (Z.of_nat i) tt = Ok tt).
Proof.
  intros Hi.
  destruct (lookup_lt_is_Some_2 resp_cont i ltac:(lia)) as [resp_A HA].
  destruct (lookup_lt_is_Some_2 resp_cont (S i) ltac:(lia)) as [resp_B HB].
  destruct (lookup_lt_is_Some_2 radii i ltac:(lia)) as [radii_A HrA].
  destruct (lookup_lt_is_Some_2 radii (S i) ltac:(lia)) as [radii_B HrB].
  pose proof (proj1 (Forall_forall _ _) responses_have_way_points) as Hall.
  assert (HwA : has_way_points resp_A)
    by (apply Hall, (list_elem_of_lookup_2 _ i), HA).
  assert (HwB : has_way_points resp_B)
    by (apply Hall, (list_elem_of_lookup_2 _ (S i)), HB).
  destruct (getLastWayPoint_defined _ HwA) as (final_A & HlastA & HgetA).
  destruct (getLastWayPoint_defined _ HwB) as (final_B & HlastB & HgetB).
  unfold checkForOverlappingRadii_body.
  rewrite (vector_at_lookup _ _ _ HA), (vector_at_lookup _ _ _ HrA).
  replace (Z.of_nat i + 1) with (Z.of_nat (S i)) by lia.
  rewrite (vector_at_lookup _ _ _ HB), (vector_at_lookup _ _ _ HrB).
  cbn [rbind]. unfold checkRadiiForOverlap.
  destruct (String.eqb_spec (getGroupName (trajectory resp_A))
              (getGroupName (trajectory resp_B))) as [Hsame|Hdiff]; cbn [negb rbind].
  - destruct (PrimFloat.eqb (PrimFloat.add radii_A radii_B) d0) eqn:Hsum; cbn [rbind].
    + right. split; [|reflexivity].
      intros (a & b & ra & rb & fa & fb & Ha & Hb & Hra & Hrb & _ & Hnz & _).
      rewrite HrA in Hra. rewrite HrB in Hrb.
      injection Hra as <-. injection Hrb as <-.
      rewrite Hsum in Hnz. discriminate.
    + rewrite HgetA, HgetB. cbn [rbind].
      destruct (PrimFloat.leb _ _) eqn:Hle.
      * left. split; [|reflexivity].
        exists resp_A, resp_B, radii_A, radii_B, final_A, final_B.
        repeat split; assumption.
      * right. split; [|reflexivity].
        intros (a & b & ra & rb & fa & fb & Ha & Hb & Hra & Hrb & _ & _ & Hfa & Hfb & Hov).
        rewrite HA in Ha. rewrite HB in Hb. rewrite HrA in Hra. rewrite HrB in Hrb.
        injection Ha as <-. injection Hb as <-.
        injection Hra as <-. injection Hrb as <-.
        rewrite HlastA in Hfa. rewrite HlastB in Hfb.
        injection Hfa as <-. injection Hfb as <-.
        rewrite Hle in Hov. discriminate.
  - right. split; [|reflexivity].
    intros (a & b & ra & rb & fa & fb & Ha & Hb & _ & _ & Hsame & _).
    rewrite HA in Ha. rewrite HB in Hb.
    injection Ha as <-. injection Hb as <-. contradiction.
Qed.

(** The loop from index [k]: it throws at the first overlapping pair, or
    completes when there is none. *)
Lemma checkForOverlappingRadii_loop_cases (fuel k : nat) :
  (3 <= length resp_cont)%nat ->
  (k <= length resp_cont - 2)%nat ->
  (length resp_cont - 2 - k < fuel)%nat ->
  let run := for_size_t fuel (Z.of_nat k) (fun _ => size_t_sub (size resp_cont) 2)
               (checkForOverlappingRadii_body model_ resp_cont radii) tt in
  (exists i, (k <= i <= length resp_cont - 3)%nat
             /\ overlaps_at model_ resp_cont radii i
             /\ (forall j, (k <= j < i)%nat -> ~ overlaps_at model_ resp_cont radii j)
             /\ run = Throw (OverlappingBlendRadiiException
                               (overlap_message (Z.of_nat i))))
  \/ ((forall i, (k <= i <= length resp_cont - 3)%nat ->
                 ~ overlaps_at model_ resp_cont radii i)
      /\ run = Ok tt).
Proof.
  intros Hlen. cbn zeta. revert k.
  induction fuel as [|fuel IH]; intros k Hk Hfuel; [lia|].
  cbn [for_size_t]. unfold size. rewrite size_t_sub_no_wrap by lia.
  destruct (Z.ltb_spec (Z.of_nat k) (Z.of_nat (length resp_cont) - 2)) as [Hlt|Hge].
  - destruct (checkForOverlappingRadii_body_cases k ltac:(lia)) as [[Hov Hbody]|[Hno Hbody]];
      rewrite Hbody; cbn [rbind].
    + left. exists k. split; [lia|]. split; [exact Hov|].
      split; [intros j Hj; lia | reflexivity].
    + replace (Z.of_nat k + 1) with (Z.of_nat (S k)) by lia.
      destruct (IH (S k) ltac:(lia) ltac:(lia)) as [(i & Hi & Hov & Hfirst & Hrun)|[Hnone Hrun]].
      * left. exists i. split; [lia|]. split; [exact Hov|]. split.
        -- intros j Hj. destruct (decide (j = k)) as [->|Hne]; [exact Hno|].
           apply Hfirst. lia.
        -- unfold size in Hrun. rewrite size_t_sub_no_wrap in Hrun by lia. exact Hrun.
      * right. split.
        -- intros i Hi. destruct (decide (i = k)) as [->|Hne]; [exact Hno|].
           apply Hnone. lia.
        -- unfold size in Hrun. rewrite size_t_sub_no_wrap in Hrun by lia. exact Hrun.
  - right. split; [|reflexivity]. intros i Hi. lia.
Qed.

End OverlapDetector.

Lemma checkForOverlappingRadii_long (model_ : RobotModel)
    (resp_cont : list MotionPlanResponse) (radii : list double) :
  (3 <= length resp_cont)%nat ->
  checkForOverlappingRadii model_ resp_cont radii
  = for_size_t (length resp_cont) 0 (fun _ => size_t_sub (size resp_cont) 2)
      (checkForOverlappingRadii_body model_ resp_cont radii) tt.
Proof.
  intros Hlen. unfold checkForOverlappingRadii.
  destruct resp_cont as [|resp rest] eqn:Hresp; [cbn in Hlen; lia|].
  rewrite <- Hresp in *.
  unfold size at 1.
  destruct (Z.ltb_spec (Z.of_nat (length resp_cont)) 3) as [Hlt|_]; [lia | reflexivity].
Qed.

(** C6: [checkForOverlappingRadii] does nothing for fewer than 3 responses.
    For N >= 3 responses (with a radius available for each of them but the
    last, and every response trajectory non-empty) it raises
    [OverlappingBlendRadiiException] exactly when for some i in [0, N-3]
    responses i and i+1 belong to the same group, radii[i] + radii[i+1] is
    nonzero and the tip-frame distance of their final waypoints is at most
    that sum; the exception names the first such pair, i and i+1; and when
    no pair overlaps, in particular when all adjacent pairs are of different
    groups, whatever the radii, the check passes. *)
Theorem checkForOverlappingRadii_spec (model_ : RobotModel)
    (resp_cont : list MotionPlanResponse) (radii : list double) :
  ((length resp_cont < 3)%nat -> checkForOverlappingRadii model_ resp_cont radii = Ok tt)
  /\ ((3 <= length resp_cont)%nat ->
      (length resp_cont - 1 <= length radii)%nat ->
      Forall has_way_points resp_cont ->
      ((exists what, checkForOverlappingRadii model_ resp_cont radii
                     = Throw (OverlappingBlendRadiiException what))
       <-> (exists i, (i <= length resp_cont - 3)%nat
                      /\ overlaps_at model_ resp_cont radii i))
      /\ (forall i, (i <= length resp_cont - 3)%nat ->
                    overlaps_at model_ resp_cont radii i ->
                    (forall j, (j < i)%nat -> ~ overlaps_at model_ resp_cont radii j) ->
                    checkForOverlappingRadii model_ resp_cont radii
                    = Throw (OverlappingBlendRadiiException (overlap_message (Z.of_nat i))))
      /\ ((forall i, (i <= length resp_cont - 3)%nat ->
                     ~ overlaps_at model_ resp_cont radii i) ->
          checkForOverlappingRadii model_ resp_cont radii = Ok tt)
      /\ ((forall (i : nat) resp_A resp_B,
              resp_cont !! i = Some resp_A -> resp_cont !! S i = Some resp_B ->
              getGroupName (trajectory resp_A) <> getGroupName (trajectory resp_B)) ->
          checkForOverlappingRadii model_ resp_cont radii = Ok tt)).
Proof.
  split.
  - intros Hshort. unfold checkForOverlappingRadii.
    destruct resp_cont as [|resp rest] eqn:Hresp; [reflexivity|].
    rewrite <- Hresp in *. unfold size.
    destruct (Z.ltb_spec (Z.of_nat (length resp_cont)) 3) as [_|Hge]; [reflexivity | lia].
  - intros Hlen Hradii Hway.
    rewrite (checkForOverlappingRadii_long _ _ _ Hlen).
    pose proof (checkForOverlappingRadii_loop_cases model_ resp_cont radii Hradii Hway
                  (length resp_cont) 0 Hlen ltac:(lia) ltac:(lia)) as Hcases.
    cbn zeta in Hcases. change (Z.of_nat 0) with 0 in Hcases.
    assert (Hpass : (forall i, (i <= length resp_cont - 3)%nat ->
                               ~ overlaps_at model_ resp_cont radii i) ->
                    for_size_t (length resp_cont) 0
                      (fun _ => size_t_sub (size resp_cont) 2)
                      (checkForOverlappingRadii_body model_ resp_cont radii) tt = Ok tt).
    { intros Hnone.
      destruct Hcases as [(i & Hi & Hov & _ & _)|[_ Hrun]]; [|exact Hrun].
      exfalso. apply (Hnone i); [lia | exact Hov]. }
    split; [|split; [|split; [exact Hpass|]]].
    + split.
      * intros (what & Hthrow).
        destruct Hcases as [(i & Hi & Hov & _ & _)|[_ Hrun]].
        -- exists i. split; [lia | exact Hov].
        -- rewrite Hrun in Hthrow. discriminate.
      * intros (i & Hi & Hov).
        destruct Hcases as [(i0 & _ & _ & _ & Hrun)|[Hnone _]].
        -- eexists. exact Hrun.
        -- exfalso. apply (Hnone i); [lia | exact Hov].
    + intros i Hi Hov Hfirst.
      destruct Hcases as [(i0 & Hi0 & Hov0 & Hfirst0 & Hrun)|[Hnone _]].
      * assert (i0 = i) as <-; [|exact Hrun].
        destruct (Nat.lt_trichotomy i0 i) as [Hlt|[Heq|Hgt]]; [|exact Heq|].
        -- exfalso. exact (Hfirst i0 Hlt Hov0).
        -- exfalso. apply (Hfirst0 i); [lia | exact Hov].
      * exfalso. apply (Hnone i); [lia | exact Hov].
    + intros Hdiff. apply Hpass.
      intros i _ (a & b & ra & rb & fa & fb & Ha & Hb & _ & _ & Hsame & _).
      exact (Hdiff i a b Ha Hb Hsame).
Qed.

Lemma checkForOverlappingRadii_spec_witness :
  (3 <= length [snd (planned "arm" [(0, 1)]%float); snd (planned "arm" [(8, 1)]%float);
                snd (planned "arm" [(20, 1)]%float)])%nat
  /\ checkForOverlappingRadii sample_model
       [snd (planned "arm" [(0, 1)]%float); snd (planned "arm" [(8, 1)]%float);
        snd (planned "arm" [(20, 1)]%float)]
       [5%float; 5%float; d0]
     = Throw (OverlappingBlendRadiiException
                "Overlapping blend radii between command [0] and [1].").
Proof.
  split; [cbn; lia|].
  destruct (checkForOverlappingRadii_spec sample_model
              [snd (planned "arm" [(0, 1)]%float); snd (planned "arm" [(8, 1)]%float);
               snd (planned "arm" [(20, 1)]%float)]
              [5%float; 5%float; d0]) as [_ Hlong].
  destruct Hlong as (_ & Hfirst & _).
  - cbn; lia.
  - cbn; lia.
  - repeat constructor; discriminate.
  - apply (Hfirst 0%nat).
    + cbn; lia.
    + exists (snd (planned "arm" [(0, 1)]%float)), (snd (planned "arm" [(8, 1)]%float)),
        5%float, 5%float,
        {| way_point := sample_state 0%float d0 d0; duration_from_start := 1%float |},
        {| way_point := sample_state 8%float d0 d0; duration_from_start := 1%float |}.
      repeat split; reflexivity.
    + intros j Hj. lia.
Defined.

(** ** TrajectoryAssembler: the append loop *)

Section AppendLoop.
Variable planning_scene : PlanningScene.
Variable resp_cont : list MotionPlanResponse.
Variable radii : list double.
Variable builder0 : PlanComponentsBuilder.
Hypothesis radii_long_enough : (length resp_cont - 1 <= length radii)%nat.

Lemma appended_upto_step (k : nat) (builder : PlanComponentsBuilder) :
  (k < length resp_cont)%nat ->
  appended_upto planning_scene resp_cont radii builder0 k builder ->
  exists builder',
    solve_append_body planning_scene resp_cont radii (Z.of_nat k) builder = Ok builder'
    /\ appended_upto planning_scene resp_cont radii builder0 (S k) builder'.
Proof.
  intros Hk (Hblender & Hlen & Hentries).
  destruct (lookup_lt_is_Some_2 resp_cont k Hk) as [resp Hresp].
  unfold solve_append_body. rewrite (vector_at_lookup _ _ _ Hresp). cbn [rbind].
  assert (Hradius : exists r,
             (if 0 <? Z.of_nat k then vector_at radii (Z.of_nat k - 1) else Ok d0) = Ok r
             /\ (k = 0%nat -> r = d0)
             /\ (forall k', k = S k' -> radii !! k' = Some r)).
  { destruct k as [|k'].
    - exists d0. split; [reflexivity|]. split; [reflexivity | discriminate].
    - destruct (lookup_lt_is_Some_2 radii k' ltac:(lia)) as [r Hr].
      exists r. destruct (Z.ltb_spec 0 (Z.of_nat (S k'))) as [_|Hle]; [|lia].
      replace (Z.of_nat (S k') - 1) with (Z.of_nat k') by lia.
      split; [exact (vector_at_lookup _ _ _ Hr)|].
      split; [discriminate|]. intros k'' Hk''. injection Hk'' as <-. exact Hr. }
  destruct Hradius as (r & Hr & Hr0 & HrS). rewrite Hr. cbn [rbind].
  eexists. split; [reflexivity|].
  unfold appended_upto, builder_append. cbn [blender_ appended].
  split; [exact Hblender|]. split.
  - rewrite length_app, Hlen. cbn. lia.
  - intros i resp' Hi Hresp'.
    destruct (decide (i = k)) as [->|Hne].
    + rewrite Hresp in Hresp'. injection Hresp' as <-.
      exists r. split; [|split; assumption].
      rewrite <- Hlen. apply list_lookup_middle. reflexivity.
    + destruct (Hentries i resp' ltac:(lia) Hresp') as (r' & Hlookup & Hrest).
      exists r'. split; [|exact Hrest].
      apply lookup_app_l_Some. exact Hlookup.
Qed.

Lemma solve_append_loop_inv (fuel k : nat) (builder : PlanComponentsBuilder) :
  (k <= length resp_cont)%nat ->
  (length resp_cont - k < fuel)%nat ->
  appended_upto planning_scene resp_cont radii builder0 k builder ->
  exists builder',
    for_size_t fuel (Z.of_nat k) (fun _ => size resp_cont)
      (solve_append_body planning_scene resp_cont radii) builder = Ok builder'
    /\ appended_upto planning_scene resp_cont radii builder0 (length resp_cont) builder'.
Proof.
  revert k builder.
  induction fuel as [|fuel IH]; intros k builder Hk Hfuel Hinv; [lia|].
  cbn [for_size_t]. unfold size.
  destruct (Z.ltb_spec (Z.of_nat k) (Z.of_nat (length resp_cont))) as [Hlt|Hge].
  - destruct (appended_upto_step k builder ltac:(lia) Hinv) as (builder1 & Hbody & Hinv1).
    rewrite Hbody. cbn [rbind].
    replace (Z.of_nat k + 1) with (Z.of_nat (S k)) by lia.
    apply IH; [lia | lia | exact Hinv1].
  - exists builder. split; [reflexivity|].
    replace (length resp_cont) with k by lia. exact Hinv.
Qed.

Lemma solve_append_all_entries :
  exists builder',
    solve_append_all planning_scene resp_cont radii builder0 = Ok builder'
    /\ appended_upto planning_scene resp_cont radii builder0 (length resp_cont) builder'.
Proof.
  unfold solve_append_all.
  apply (solve_append_loop_inv (S (length resp_cont)) 0 builder0); [lia | lia|].
  split; [reflexivity|]. split; [lia|]. intros i resp Hi. lia.
Qed.

End AppendLoop.

Lemma solveSequenceItems_loop_length planning_scene planning_pipeline
    (seq_items : list MotionSequenceItem) :
  forall (motion_plan_responses responses : list MotionPlanResponse) (w w' : World),
    solveSequenceItems_loop planning_scene planning_pipeline seq_items
      motion_plan_responses w = (Ok responses, w') ->
    length responses = (length motion_plan_responses + length seq_items)%nat.
Proof.
  induction seq_items as [|seq_item rest IH]; intros acc responses w w' Hrun.
  - cbn in Hrun. injection Hrun as <- _. cbn. lia.
  - cbn [solveSequenceItems_loop] in Hrun. unfold mbind, lift, generatePlan in Hrun.
    destruct (setStartState acc _ _) as [start| e | |]; try discriminate.
    destruct (negb _); [discriminate|].
    apply IH in Hrun. rewrite length_app in Hrun. cbn in Hrun |- *. lia.
Qed.

Lemma extractBlendRadii_length (model : RobotModel) (req_list : MotionSequenceRequest)
    (radii : list double) :
  items req_list <> [] ->
  extractBlendRadii model req_list = Ok radii ->
  length radii = length (items req_list).
Proof.
  intros Hne Hrun.
  assert (Hlen : (1 <= length (items req_list))%nat).
  { destruct (items req_list); [contradiction | cbn; lia]. }
  destruct (extractBlendRadii_loop_inv model (items req_list)
              (S (length (items req_list))) 0 (replicate (length (items req_list)) d0)
              Hlen ltac:(lia) ltac:(lia) (radii_upto_init model (items req_list)))
    as (radii' & Hrun' & Hlength & _).
  unfold extractBlendRadii in Hrun. cbn zeta in Hrun.
  change (Z.of_nat 0) with 0 in Hrun'.
  rewrite Hrun' in Hrun. injection Hrun as <-. exact Hlength.
Qed.

(** The world in which a [solve] call that gets past planning and the overlap
    check ends: the builder has been reset and then fed every response. *)
Lemma solve_reaches_assembly (model_ : RobotModel) (planning_scene : PlanningScene)
    (planning_pipeline : PlanningPipeline) (req_list : MotionSequenceRequest)
    (w w1 : World) (resp_cont : list MotionPlanResponse) (radii : list double)
    (builder : PlanComponentsBuilder) :
  items req_list <> [] ->
  checkForNegativeRadii req_list = Ok tt ->
  checkLastBlendRadiusZero req_list = Ok tt ->
  checkStartStates req_list = Ok tt ->
  solveSequenceItems planning_scene planning_pipeline req_list w = (Ok resp_cont, w1) ->
  extractBlendRadii model_ req_list = Ok radii ->
  checkForOverlappingRadii model_ resp_cont radii = Ok tt ->
  solve_append_all planning_scene resp_cont radii
    (builder_reset (plan_comp_builder_ w1)) = Ok builder ->
  solve model_ planning_scene planning_pipeline req_list w
  = (solve_dedup_all (builder_build builder),
     {| generatePlan_calls := generatePlan_calls w1; plan_comp_builder_ := builder |}).
Proof.
  intros Hne Hneg Hlast Hstart Hsolve Hextract Hoverlap Happend.
  unfold solve. destruct (items req_list) as [|item0 rest0]; [contradiction|].
  unfold mbind, lift.
  rewrite Hneg, Hlast, Hstart, Hsolve, Hextract, Hoverlap.
  unfold with_builder, build. cbn [plan_comp_builder_ generatePlan_calls].
  rewrite Happend. cbn [plan_comp_builder_].
  destruct (solve_dedup_all _); reflexivity.
Qed.

(** C7: in a [solve] call that reaches assembly, the builder receives one
    append per response, in order; the append of response [i] carries that
    response's trajectory and the incoming radius: 0 for i = 0 and
    radii[i-1] for i > 0. *)
Theorem solve_attaches_incoming_radius (model_ : RobotModel)
    (planning_scene : PlanningScene) (planning_pipeline : PlanningPipeline)
    (req_list : MotionSequenceRequest) (w w1 : World)
    (resp_cont : list MotionPlanResponse) (radii : list double) :
  items req_list <> [] ->
  checkForNegativeRadii req_list = Ok tt ->
  checkLastBlendRadiusZero req_list = Ok tt ->
  checkStartStates req_list = Ok tt ->
  solveSequenceItems planning_scene planning_pipeline req_list w = (Ok resp_cont, w1) ->
  extractBlendRadii model_ req_list = Ok radii ->
  checkForOverlappingRadii model_ resp_cont radii = Ok tt ->
  let builder :=
    plan_comp_builder_ (snd (solve model_ planning_scene planning_pipeline req_list w)) in
  length (appended builder) = length resp_cont
  /\ forall (i : nat) resp,
       resp_cont !! i = Some resp ->
       exists r,
         appended builder !! i
         = Some {| entry_scene := planning_scene;
                   entry_trajectory := trajectory resp;
                   entry_blend_radius := r |}
         /\ (i = 0%nat -> r = d0)
         /\ (forall i', i = S i' -> radii !! i' = Some r).
Proof.
  intros Hne Hneg Hlast Hstart Hsolve Hextract Hoverlap.
  assert (Hlong : (length resp_cont - 1 <= length radii)%nat).
  { rewrite (extractBlendRadii_length _ _ _ Hne Hextract).
    unfold solveSequenceItems in Hsolve.
    apply solveSequenceItems_loop_length in Hsolve. cbn in Hsolve. lia. }
  destruct (solve_append_all_entries planning_scene resp_cont radii
              (builder_reset (plan_comp_builder_ w1)) Hlong)
    as (builder & Happend & _ & Hlen & Hentries).
  rewrite (solve_reaches_assembly _ _ _ _ _ _ _ _ _
             Hne Hneg Hlast Hstart Hsolve Hextract Hoverlap Happend).
  cbn [snd plan_comp_builder_ builder_reset appended length Nat.add] in *.
  split; [exact Hlen|].
  intros i resp Hresp.
  apply (Hentries i resp); [|exact Hresp].
  apply lookup_lt_Some in Hresp. exact Hresp.
Qed.

Lemma solve_attaches_incoming_radius_witness :
  extractBlendRadii sample_model sample_sequence4
  = Ok [0.5%float; 0.25%float; d0; d0]
  /\ exists r,
       appended (plan_comp_builder_
                   (snd (solve sample_model sample_scene (scripted_pipeline sample_script4)
                           sample_sequence4 sample_world)))
       !! 1%nat
       = Some {| entry_scene := sample_scene;
                 entry_trajectory := sample_trajectory "arm" [(10, 0); (20, 1)]%float;
                 entry_blend_radius := r |}
       /\ r = 0.5%float.
Proof.
  split; [reflexivity|].
  destruct (solve_attaches_incoming_radius sample_model sample_scene
              (scripted_pipeline sample_script4) sample_sequence4 sample_world
              (snd (solveSequenceItems sample_scene (scripted_pipeline sample_script4)
                      sample_sequence4 sample_world))
              (map snd sample_script4)
              [0.5%float; 0.25%float; d0; d0])
    as [_ Hentries].
  - discriminate.
  - reflexivity.
  - reflexivity.
  - reflexivity.
  - reflexivity.
  - reflexivity.
  - reflexivity.
  - destruct (Hentries 1%nat (snd (planned "arm" [(10, 0); (20, 1)]%float)) eq_refl)
      as (r & Hlookup & _ & Hradius).
    exists r. split; [exact Hlookup|].
    specialize (Hradius 0%nat eq_refl). cbn in Hradius.
    injection Hradius as <-. reflexivity.
Defined.

(** ** De-duplication *)

Lemma getWayPointDurationFromStart_lookup (traj : RobotTrajectory) (k : nat) (w : WayPoint) :
  way_points traj !! k = Some w ->
  getWayPointDurationFromStart traj (Z.of_nat k) = Ok (duration_from_start w).
Proof.
  intros H. unfold getWayPointDurationFromStart.
  destruct (Z.ltb_spec (Z.of_nat k) 0) as [Hneg|_]; [lia|].
  rewrite Nat2Z.id, H. reflexivity.
Qed.

Lemma removeWayPoint_lookup (traj : RobotTrajectory) (k : nat) :
  (k < length (way_points traj))%nat ->
  removeWayPoint traj (Z.of_nat k)
  = Ok {| getGroupName := getGroupName traj; way_points := delete k (way_points traj) |}.
Proof.
  intros H. unfold removeWayPoint, size.
  destruct (Z.ltb_spec (Z.of_nat k) 0) as [Hneg|_]; [lia|].
  destruct (Z.ltb_spec (Z.of_nat k) (Z.of_nat (length (way_points traj)))) as [_|Hge];
    [|lia].
  rewrite Nat2Z.id. reflexivity.
Qed.

Lemma solve_dedup_loop_defined (fuel : nat) :
  forall (k : nat) (traj : RobotTrajectory),
    way_points traj <> [] ->
    (length (way_points traj) - k < fuel)%nat ->
    exists traj',
      for_size_t fuel (Z.of_nat k) (fun traj => size_t_sub (traj_size traj) 1)
        solve_dedup_body traj = Ok traj'
      /\ way_points traj' <> [].
Proof.
  induction fuel as [|fuel IH]; intros k traj Hne Hfuel; [lia|].
  assert (Hlen : (1 <= length (way_points traj))%nat).
  { destruct (way_points traj); [contradiction | cbn; lia]. }
  cbn [for_size_t]. unfold traj_size, size at 1.
  rewrite size_t_sub_no_wrap by lia.
  destruct (Z.ltb_spec (Z.of_nat k) (Z.of_nat (length (way_points traj)) - 1)) as [Hlt|Hge].
  - destruct (lookup_lt_is_Some_2 (way_points traj) k ltac:(lia)) as [w_i Hi].
    destruct (lookup_lt_is_Some_2 (way_points traj) (S k) ltac:(lia)) as [w_next Hnext].
    unfold solve_dedup_body.
    rewrite (getWayPointDurationFromStart_lookup _ _ _ Hi).
    replace (Z.of_nat k + 1) with (Z.of_nat (S k)) by lia.
    rewrite (getWayPointDurationFromStart_lookup _ _ _ Hnext). cbn [rbind].
    destruct (PrimFloat.eqb (duration_from_start w_i) (duration_from_start w_next)).
    + rewrite removeWayPoint_lookup by lia. cbn [rbind].
      assert (Hdel : length (delete (S k) (way_points traj))
                     = (length (way_points traj) - 1)%nat).
      { rewrite length_delete; [reflexivity | eexists; exact Hnext]. }
      apply IH; cbn [way_points].
      * intros Hnil. rewrite Hnil in Hdel. cbn in Hdel. lia.
      * rewrite Hdel. lia.
    + cbn [rbind]. apply IH; [exact Hne | lia].
  - exists traj. split; [reflexivity | exact Hne].
Qed.

(** C10: the de-duplication loop is defined on every trajectory with at least
    one waypoint, where it returns a trajectory and never makes an
    out-of-range access, and so is the pass over a list of such
    trajectories; on a trajectory with no waypoint the loop bound [size() - 1]
    wraps around to 2^64 - 1 and the first iteration reads outside the
    waypoint sequence. *)
Theorem solve_dedup_needs_way_points :
  (forall traj, way_points traj <> [] ->
                exists traj', solve_dedup traj = Ok traj' /\ way_points traj' <> [])
  /\ (forall res_vec, Forall (fun traj => way_points traj <> []) res_vec ->
                      exists res_vec', solve_dedup_all res_vec = Ok res_vec')
  /\ (forall traj, way_points traj = [] ->
                   size_t_sub (traj_size traj) 1 = 2 ^ 64 - 1
                   /\ solve_dedup traj = OutOfRangeAccess).
Proof.
  assert (Hone : forall traj, way_points traj <> [] ->
                   exists traj', solve_dedup traj = Ok traj' /\ way_points traj' <> []).
  { intros traj Hne. unfold solve_dedup.
    apply (solve_dedup_loop_defined _ 0 traj Hne). lia. }
  split; [exact Hone|]. split.
  - induction res_vec as [|traj rest IH]; intros Hall.
    + exists []. reflexivity.
    + apply Forall_cons in Hall as [Hne Hrest].
      destruct (Hone traj Hne) as (traj' & Htraj & _).
      destruct (IH Hrest) as (rest' & Hrest').
      exists (traj' :: rest'). cbn [solve_dedup_all].
      rewrite Htraj, Hrest'. reflexivity.
  - intros [group points] Hempty. cbn in Hempty. subst points.
    split; reflexivity.
Qed.

Lemma solve_dedup_needs_way_points_witness :
  way_points (sample_trajectory "arm" [(0, 0); (1, 1); (2, 1)]%float) <> []
  /\ exists traj',
       solve_dedup (sample_trajectory "arm" [(0, 0); (1, 1); (2, 1)]%float) = Ok traj'
       /\ way_points traj' <> [].
Proof.
  split; [discriminate|].
  apply (proj1 solve_dedup_needs_way_points). discriminate.
Defined.

(** C2 fails on the code: a single planned request whose trajectory has three
    waypoints at time 1 comes back from [solve] with two of them left, so two
    consecutive waypoints still share their time from start.  The loop steps
    past the index at which it has just removed a waypoint and never compares
    the survivor with its new successor. *)
Theorem solve_leaves_duplicate_time :
  exists traj,
    fst (solve sample_model sample_scene
           (scripted_pipeline [planned "arm" [(0, 0); (1, 1); (2, 1); (3, 1)]%float])
           {| items := [sample_item "arm" no_start_state 0%float] |} sample_world)
    = Ok [traj]
    /\ times_of traj = [0; 1; 1]%float
    /\ times_of traj !! 1%nat = times_of traj !! 2%nat.
Proof.
  eexists. split; [reflexivity|]. split; reflexivity.
Qed.

(** ** The loops never run out of fuel *)

Lemma rbind_fuel {A B : Type} (c : Result A) (k : A -> Result B) :
  c <> OutOfFuel -> (forall a, k a <> OutOfFuel) -> rbind c k <> OutOfFuel.
Proof.
  intros Hc Hk. destruct c; cbn [rbind];
    [apply Hk | discriminate | discriminate | contradiction].
Qed.

Lemma vector_at_fuel {A : Type} (v : list A) (i : Z) : vector_at v i <> OutOfFuel.
Proof.
  unfold vector_at. destruct (i <? 0); [discriminate|].
  destruct (v !! Z.to_nat i); discriminate.
Qed.

Lemma getLastWayPoint_fuel (traj : RobotTrajectory) : getLastWayPoint traj <> OutOfFuel.
Proof. unfold getLastWayPoint. destruct (last (way_points traj)); discriminate. Qed.

(** A loop whose bound does not change stops within [bound - i] iterations. *)
Lemma for_size_t_fuel {St : Type} (bound : Z) (body : Z -> St -> Result St) :
  (forall i s, body i s <> OutOfFuel) ->
  forall (fuel : nat) (i : Z) (s : St),
    (Z.to_nat (bound - i) < fuel)%nat ->
    for_size_t fuel i (fun _ => bound) body s <> OutOfFuel.
Proof.
  intros Hbody. induction fuel as [|fuel IH]; intros i s Hfuel; [lia|].
  cbn [for_size_t].
  destruct (Z.ltb_spec i bound) as [Hlt|Hge]; [|discriminate].
  apply rbind_fuel; [apply Hbody|].
  intros s'. apply IH. lia.
Qed.

Lemma extractBlendRadii_fuel (model : RobotModel) (req_list : MotionSequenceRequest) :
  extractBlendRadii model req_list <> OutOfFuel.
Proof.
  destruct (items req_list) as [|item rest] eqn:Hitems.
  - unfold extractBlendRadii. rewrite Hitems. discriminate.
  - assert (Hlen : (1 <= length (items req_list))%nat) by (rewrite Hitems; cbn; lia).
    destruct (extractBlendRadii_loop_inv model (items req_list)
                (S (length (items req_list))) 0 (replicate (length (items req_list)) d0)
                Hlen ltac:(lia) ltac:(lia) (radii_upto_init model (items req_list)))
      as (radii & Hrun & _).
    unfold extractBlendRadii. cbn zeta.
    change (Z.of_nat 0) with 0 in Hrun. rewrite Hrun. discriminate.
Qed.

Lemma checkForOverlappingRadii_fuel (model_ : RobotModel)
    (resp_cont : list MotionPlanResponse) (radii : list double) :
  checkForOverlappingRadii model_ resp_cont radii <> OutOfFuel.
Proof.
  unfold checkForOverlappingRadii.
  destruct resp_cont as [|resp rest] eqn:Hresp; [discriminate|].
  rewrite <- Hresp. clear Hresp. unfold size at 1.
  destruct (Z.ltb_spec (Z.of_nat (length resp_cont)) 3) as [_|Hge]; [discriminate|].
  apply for_size_t_fuel.
  - intros i []. unfold checkForOverlappingRadii_body.
    repeat (apply rbind_fuel; [apply vector_at_fuel | intros ?]).
    apply rbind_fuel.
    + unfold checkRadiiForOverlap.
      destruct (negb _); [discriminate|].
      destruct (PrimFloat.eqb _ _); [discriminate|].
      repeat (apply rbind_fuel; [apply getLastWayPoint_fuel | intros ?]).
      discriminate.
    + intros [|]; discriminate.
  - unfold size. rewrite size_t_sub_no_wrap by lia. lia.
Qed.

Lemma solve_append_all_fuel (planning_scene : PlanningScene)
    (resp_cont : list MotionPlanResponse) (radii : list double)
    (builder : PlanComponentsBuilder) :
  solve_append_all planning_scene resp_cont radii builder <> OutOfFuel.
Proof.
  unfold solve_append_all. apply for_size_t_fuel.
  - intros i b. unfold solve_append_body.
    apply rbind_fuel; [apply vector_at_fuel | intros resp].
    apply rbind_fuel; [|discriminate].
    destruct (0 <? i); [apply vector_at_fuel | discriminate].
  - unfold size. lia.
Qed.

Lemma solve_dedup_fuel (traj : RobotTrajectory) : solve_dedup traj <> OutOfFuel.
Proof.
  destruct (way_points traj) as [|w rest] eqn:Hpoints.
  - destruct traj as [group points]. cbn in Hpoints. subst points. discriminate.
  - destruct (solve_dedup_loop_defined (S (length (way_points traj))) 0 traj)
      as (traj' & Hrun & _); [rewrite Hpoints; discriminate | lia|].
    unfold solve_dedup. change (Z.of_nat 0) with 0 in Hrun. rewrite Hrun. discriminate.
Qed.

Lemma solve_dedup_all_fuel (res_vec : list RobotTrajectory) :
  solve_dedup_all res_vec <> OutOfFuel.
Proof.
  induction res_vec as [|traj rest IH]; cbn [solve_dedup_all]; [discriminate|].
  apply rbind_fuel; [apply solve_dedup_fuel | intros traj'].
  apply rbind_fuel; [exact IH | discriminate].
Qed.

Lemma solveSequenceItems_loop_fuel planning_scene planning_pipeline
    (seq_items : list MotionSequenceItem) :
  forall (motion_plan_responses : list MotionPlanResponse) (w : World),
    fst (solveSequenceItems_loop planning_scene planning_pipeline seq_items
           motion_plan_responses w) <> OutOfFuel.
Proof.
  induction seq_items as [|seq_item rest IH]; intros acc w; [discriminate|].
  cbn [solveSequenceItems_loop]. unfold mbind, lift, generatePlan.
  unfold setStartState, getPreviousEndState.
  assert (Hscan : forall l g, getPreviousEndState_scan l g <> OutOfFuel).
  { induction l as [|it l IHl]; intros g; cbn [getPreviousEndState_scan]; [discriminate|].
    destruct (String.eqb _ g); [|apply IHl].
    apply rbind_fuel; [apply getLastWayPoint_fuel | discriminate]. }
  destruct (getPreviousEndState_scan (rev acc) (group_name (req seq_item)))
    as [[state|]| e | |] eqn:Hprev; cbn [rbind fst]; try discriminate.
  - destruct (negb _); [discriminate | apply IH].
  - destruct (negb _); [discriminate | apply IH].
  - exfalso. exact (Hscan _ _ Hprev).
Qed.

(** [solve] as modelled always reaches an outcome of the program: a result,
    an exception or an out-of-range access. *)
Lemma solve_fuel (model_ : RobotModel) (planning_scene : PlanningScene)
    (planning_pipeline : PlanningPipeline) (req_list : MotionSequenceRequest) (w : World) :
  fst (solve model_ planning_scene planning_pipeline req_list w) <> OutOfFuel.
Proof.
  pose proof (extractBlendRadii_fuel model_ req_list) as Hextract.
  pose proof (solveSequenceItems_loop_fuel planning_scene planning_pipeline
                (items req_list) [] w) as Hplan.
  unfold solve. destruct (items req_list) as [|item rest] eqn:Hitems; [discriminate|].
  unfold mbind, lift.
  unfold checkForNegativeRadii. destruct (negb _); [discriminate|].
  unfold checkLastBlendRadiusZero.
  destruct (last (items req_list)); [|discriminate].
  destruct (negb _); [discriminate|].
  destruct (checkStartStates_loop_result req_list (getGroupNames req_list))
    as [Hcheck | (what & Hcheck)];
    unfold checkStartStates; destruct (size (items req_list) <=? 1);
    try rewrite Hcheck; try discriminate.
  all: unfold solveSequenceItems; rewrite Hitems in *;
    destruct (solveSequenceItems_loop _ _ _ _ _) as [[resp_cont| e | |] w1];
    cbn [fst] in *; try discriminate; try contradiction.
  all: destruct (extractBlendRadii model_ req_list) as [radii| e | |];
    try discriminate; try contradiction.
  all: pose proof (checkForOverlappingRadii_fuel model_ resp_cont radii) as Hoverlap;
    destruct (checkForOverlappingRadii model_ resp_cont radii) as [[]| e | |];
    try discriminate; try contradiction.
  all: unfold with_builder, build; cbn [plan_comp_builder_ generatePlan_calls].
  all: pose proof (solve_append_all_fuel planning_scene resp_cont radii
                     (builder_reset (plan_comp_builder_ w1))) as Happend;
    destruct (solve_append_all _ _ _ _) as [builder| e | |];
    try discriminate; try contradiction.
  all: cbn [plan_comp_builder_];
    pose proof (solve_dedup_all_fuel (builder_build builder)) as Hdedup;
    destruct (solve_dedup_all _); cbn [fst]; try discriminate; contradiction.
Qed.

(* ================================================================= *)
(** * Further properties of the code *)

(** ** De-duplication as a single pass *)

Lemma solve_dedup_loop_pass (group : string) (fuel : nat) :
  forall (pre suf : list WayPoint),
    pre ++ suf <> [] ->
    (length suf < fuel)%nat ->
    for_size_t fuel (Z.of_nat (length pre))
      (fun traj => size_t_sub (traj_size traj) 1) solve_dedup_body
      {| getGroupName := group; way_points := pre ++ suf |}
    = Ok {| getGroupName := group; way_points := pre ++ dedup_pass suf |}.
Proof.
  induction fuel as [|fuel IH]; intros pre suf Hne Hfuel; [lia|].
  assert (Hlen : (1 <= length (pre ++ suf))%nat).
  { destruct (pre ++ suf); [contradiction | cbn; lia]. }
  cbn [for_size_t]. unfold traj_size, size at 1. cbn [way_points].
  rewrite size_t_sub_no_wrap by lia.
  rewrite length_app in *.
  destruct suf as [|w [|next rest]].
  - destruct (Z.ltb_spec (Z.of_nat (length pre))
                (Z.of_nat (length pre + length (@nil WayPoint)) - 1)) as [Hlt|_];
      [cbn in Hlt; lia | reflexivity].
  - destruct (Z.ltb_spec (Z.of_nat (length pre))
                (Z.of_nat (length pre + length [w]) - 1)) as [Hlt|_];
      [cbn in Hlt; lia | reflexivity].
  - destruct (Z.ltb_spec (Z.of_nat (length pre))
                (Z.of_nat (length pre + length (w :: next :: rest)) - 1)) as [_|Hge];
      [|cbn in Hge; lia].
    assert (Hw : (pre ++ w :: next :: rest) !! length pre = Some w)
      by (apply list_lookup_middle; reflexivity).
    assert (Hnext : (pre ++ w :: next :: rest) !! S (length pre) = Some next).
    { rewrite (cons_middle w pre), app_assoc.
      apply list_lookup_middle. rewrite length_app. cbn. lia. }
    unfold solve_dedup_body.
    rewrite (getWayPointDurationFromStart_lookup
               {| getGroupName := group; way_points := pre ++ w :: next :: rest |}
               (length pre) w Hw).
    replace (Z.of_nat (length pre) + 1) with (Z.of_nat (S (length pre))) by lia.
    rewrite (getWayPointDurationFromStart_lookup
               {| getGroupName := group; way_points := pre ++ w :: next :: rest |}
               (S (length pre)) next Hnext).
    cbn [rbind dedup_pass].
    assert (Hpre : S (length pre) = length (pre ++ [w]))
      by (rewrite length_app; cbn; lia).
    destruct (PrimFloat.eqb (duration_from_start w) (duration_from_start next)).
    + rewrite removeWayPoint_lookup
        by (cbn [way_points]; rewrite length_app; cbn; lia).
      cbn [rbind getGroupName way_points].
      assert (Hdel : delete (S (length pre)) (pre ++ w :: next :: rest)
                     = (pre ++ [w]) ++ rest).
      { rewrite Hpre. change (pre ++ w :: next :: rest) with (pre ++ [w] ++ next :: rest).
        rewrite app_assoc. apply delete_middle. }
      rewrite Hdel, Hpre.
      etransitivity; [apply (IH (pre ++ [w]) rest)|].
      * destruct pre; discriminate.
      * cbn in Hfuel. lia.
      * rewrite <- app_assoc. reflexivity.
    + cbn [rbind].
      replace (pre ++ w :: next :: rest) with ((pre ++ [w]) ++ next :: rest)
        by (rewrite <- app_assoc; reflexivity).
      rewrite Hpre.
      etransitivity; [apply (IH (pre ++ [w]) (next :: rest))|].
      * destruct pre; discriminate.
      * cbn in Hfuel |- *. lia.
      * rewrite <- app_assoc. reflexivity.
Qed.

Lemma solve_dedup_run (traj : RobotTrajectory) :
  way_points traj <> [] ->
  solve_dedup traj
  = Ok {| getGroupName := getGroupName traj;
          way_points := dedup_pass (way_points traj) |}.
Proof.
  intros Hne. destruct traj as [group points]. cbn [getGroupName way_points] in *.
  unfold solve_dedup. cbn [way_points].
  apply (solve_dedup_loop_pass group (S (length points)) [] points Hne). lia.
Qed.

Lemma solve_dedup_empty (traj : RobotTrajectory) :
  way_points traj = [] -> solve_dedup traj = OutOfRangeAccess.
Proof.
  destruct traj as [group points]. cbn [way_points]. intros ->. reflexivity.
Qed.

(** X1: the index loop with its in-place removals computes the single pass
    [dedup_pass]: on a trajectory with at least one waypoint it returns the
    trajectory of the same group with the waypoints [dedup_pass] keeps, and
    on a trajectory without waypoints it reads out of range. *)
Theorem solve_dedup_is_dedup_pass (traj : RobotTrajectory) :
  solve_dedup traj
  = match way_points traj with
    | [] => OutOfRangeAccess
    | _ :: _ => Ok {| getGroupName := getGroupName traj;
                      way_points := dedup_pass (way_points traj) |}
    end.
Proof.
  destruct (way_points traj) as [|w rest] eqn:Hpoints.
  - apply solve_dedup_empty. exact Hpoints.
  - rewrite <- Hpoints. apply solve_dedup_run. rewrite Hpoints. discriminate.
Qed.

(** Induction that steps over one or two elements. *)
Lemma list_pair_ind {A : Type} (P : list A -> Prop) :
  P [] -> (forall x, P [x]) ->
  (forall x y l, P l -> P (y :: l) -> P (x :: y :: l)) ->
  forall l, P l.
Proof.
  intros Hnil Hone Hstep l.
  assert (H : P l /\ forall x, P (x :: l)).
  { induction l as [|y l [IHl IHcons]]; [split; [exact Hnil | exact Hone]|].
    split; [apply IHcons|]. intros x. apply Hstep; [exact IHl | apply IHcons]. }
  exact (proj1 H).
Qed.

Lemma dedup_pass_step (w next : WayPoint) (rest : list WayPoint) :
  dedup_pass (w :: next :: rest)
  = if PrimFloat.eqb (duration_from_start w) (duration_from_start next)
    then w :: dedup_pass rest
    else w :: dedup_pass (next :: rest).
Proof. reflexivity. Qed.

Lemma adjacent_times_differ_step (w next : WayPoint) (rest : list WayPoint) :
  adjacent_times_differ (w :: next :: rest)
  = negb (PrimFloat.eqb (duration_from_start w) (duration_from_start next))
    && adjacent_times_differ (next :: rest).
Proof. reflexivity. Qed.

Lemma no_run_of_three_step (w next : WayPoint) (rest : list WayPoint) :
  no_run_of_three (w :: next :: rest)
  = match rest with
    | [] => true
    | third :: _ =>
        negb (PrimFloat.eqb (duration_from_start w) (duration_from_start next)
              && PrimFloat.eqb (duration_from_start w) (duration_from_start third))
    end
    && no_run_of_three (next :: rest).
Proof. reflexivity. Qed.

Lemma dedup_pass_cons (w : WayPoint) (rest : list WayPoint) :
  exists kept, dedup_pass (w :: rest) = w :: kept.
Proof.
  destruct rest as [|next rest']; cbn [dedup_pass]; [eexists; reflexivity|].
  destruct (PrimFloat.eqb _ _); eexists; reflexivity.
Qed.

Lemma dedup_pass_sublist (points : list WayPoint) :
  dedup_pass points `sublist_of` points.
Proof.
  induction points as [| w | w next rest IHrest IHnext] using list_pair_ind.
  - constructor.
  - reflexivity.
  - rewrite dedup_pass_step. destruct (PrimFloat.eqb _ _).
    + apply sublist_skip, sublist_cons. exact IHrest.
    + apply sublist_skip. exact IHnext.
Qed.

Lemma dedup_pass_fixed (points : list WayPoint) :
  dedup_pass points = points <-> adjacent_times_differ points = true.
Proof.
  induction points as [| w | w next rest IHrest IHnext] using list_pair_ind.
  - split; reflexivity.
  - split; reflexivity.
  - rewrite dedup_pass_step, adjacent_times_differ_step.
    destruct (PrimFloat.eqb (duration_from_start w) (duration_from_start next));
      cbn [negb andb].
    + split; [|discriminate].
      intros Heq. injection Heq as Heq.
      pose proof (sublist_length _ _ (dedup_pass_sublist rest)) as Hlen.
      rewrite Heq in Hlen. cbn in Hlen. lia.
    + rewrite <- IHnext. split.
      * intros Heq. injection Heq as Heq. exact Heq.
      * intros Heq. rewrite Heq. reflexivity.
Qed.

Lemma dedup_pass_no_run_of_three (points : list WayPoint) :
  no_run_of_three points = true ->
  adjacent_times_differ (dedup_pass points) = true.
Proof.
  induction points as [| w | w next rest IHrest IHnext] using list_pair_ind.
  - reflexivity.
  - reflexivity.
  - intros Hruns. rewrite no_run_of_three_step in Hruns.
    apply andb_true_iff in Hruns as [Hwindow Hnext].
    rewrite dedup_pass_step.
    destruct (PrimFloat.eqb (duration_from_start w) (duration_from_start next)) eqn:Heq.
    + destruct rest as [|third rest']; [reflexivity|].
      assert (Hrest : no_run_of_three (third :: rest') = true).
      { rewrite no_run_of_three_step in Hnext.
        apply andb_true_iff in Hnext as [_ Hrest]. exact Hrest. }
      specialize (IHrest Hrest).
      destruct (dedup_pass_cons third rest') as (kept & Hkept).
      rewrite Hkept in *. rewrite adjacent_times_differ_step.
      rewrite IHrest. cbn [andb] in Hwindow.
      destruct (PrimFloat.eqb (duration_from_start w) (duration_from_start third));
        [discriminate | reflexivity].
    + specialize (IHnext Hnext).
      destruct (dedup_pass_cons next rest) as (kept & Hkept).
      rewrite Hkept in *. rewrite adjacent_times_differ_step.
      rewrite Heq, IHnext. reflexivity.
Qed.

(** X2: whatever the de-duplication loop returns is its input thinned out:
    the same group, a subsequence of the input waypoints in their order, and
    the same first waypoint; in particular it is never empty. *)
Theorem solve_dedup_keeps_subsequence (traj traj' : RobotTrajectory) :
  solve_dedup traj = Ok traj' ->
  getGroupName traj' = getGroupName traj
  /\ way_points traj' `sublist_of` way_points traj
  /\ head (way_points traj') = head (way_points traj)
  /\ way_points traj' <> [].
Proof.
  intros Hrun.
  destruct (way_points traj) as [|w rest] eqn:Hpoints.
  - rewrite (solve_dedup_empty traj Hpoints) in Hrun. discriminate.
  - rewrite solve_dedup_run in Hrun by (rewrite Hpoints; discriminate).
    injection Hrun as <-. cbn [getGroupName way_points]. rewrite Hpoints.
    split; [reflexivity|]. split; [apply dedup_pass_sublist|].
    destruct (dedup_pass_cons w rest) as (kept & Hkept). rewrite Hkept.
    split; [reflexivity | discriminate].
Qed.

Lemma solve_dedup_keeps_subsequence_witness :
  solve_dedup (sample_trajectory "arm" [(0, 0); (1, 1); (2, 1)]%float)
  = Ok (sample_trajectory "arm" [(0, 0); (1, 1)]%float)
  /\ way_points (sample_trajectory "arm" [(0, 0); (1, 1)]%float)
     `sublist_of` way_points (sample_trajectory "arm" [(0, 0); (1, 1); (2, 1)]%float).
Proof.
  assert (Hrun : solve_dedup (sample_trajectory "arm" [(0, 0); (1, 1); (2, 1)]%float)
                 = Ok (sample_trajectory "arm" [(0, 0); (1, 1)]%float)) by reflexivity.
  split; [exact Hrun|].
  exact (proj1 (proj2 (solve_dedup_keeps_subsequence _ _ Hrun))).
Defined.

(** X3: the de-duplication loop returns a trajectory unchanged exactly when
    it has at least one waypoint and no two consecutive waypoints share
    their time from start. *)
Theorem solve_dedup_unchanged_iff (traj : RobotTrajectory) :
  solve_dedup traj = Ok traj
  <-> way_points traj <> [] /\ adjacent_times_differ (way_points traj) = true.
Proof.
  split.
  - intros Hrun.
    destruct (way_points traj) as [|w rest] eqn:Hpoints.
    + rewrite (solve_dedup_empty traj Hpoints) in Hrun. discriminate.
    + split; [discriminate|].
      rewrite solve_dedup_run in Hrun by (rewrite Hpoints; discriminate).
      rewrite <- Hpoints. apply dedup_pass_fixed.
      destruct traj as [group points]. cbn [getGroupName way_points] in *.
      injection Hrun as Hrun. exact Hrun.
  - intros [Hne Hclean].
    rewrite (solve_dedup_run traj Hne).
    apply dedup_pass_fixed in Hclean. rewrite Hclean.
    destruct traj; reflexivity.
Qed.

(** X4: when no waypoint shares its time with both of the two waypoints
    after it (no run of three equal times), the loop does remove every
    duplicate: in its result no two consecutive waypoints share a time. *)
Theorem solve_dedup_without_runs_of_three (traj : RobotTrajectory) :
  way_points traj <> [] ->
  no_run_of_three (way_points traj) = true ->
  exists traj',
    solve_dedup traj = Ok traj'
    /\ adjacent_times_differ (way_points traj') = true.
Proof.
  intros Hne Hruns. eexists. split; [apply solve_dedup_run; exact Hne|].
  cbn [way_points]. apply dedup_pass_no_run_of_three. exact Hruns.
Qed.

Lemma solve_dedup_without_runs_of_three_witness :
  no_run_of_three
    (way_points (sample_trajectory "arm" [(0, 0); (1, 1); (2, 1); (3, 2); (4, 2)]%float))
  = true
  /\ exists traj',
       solve_dedup (sample_trajectory "arm"
                      [(0, 0); (1, 1); (2, 1); (3, 2); (4, 2)]%float) = Ok traj'
       /\ adjacent_times_differ (way_points traj') = true.
Proof.
  split; [reflexivity|].
  apply solve_dedup_without_runs_of_three; [discriminate | reflexivity].
Defined.

(** ** Group names *)

Lemma getGroupNames_fold (req_items : list MotionSequenceItem) :
  forall group_names : list string,
    NoDup group_names ->
    let result :=
      fold_left
        (fun group_names item =>
           if existsb (String.eqb (group_name (req item))) group_names
           then group_names
           else group_names ++ [group_name (req item)])
        req_items group_names in
    NoDup result
    /\ forall g, In g result <->
                 In g group_names
                 \/ exists item, In item req_items /\ group_name (req item) = g.
Proof.
  induction req_items as [|item rest IH]; intros names Hnodup; cbn zeta.
  - split; [exact Hnodup|]. intros g. split; [left; assumption|].
    intros [H|(item & [] & _)]. exact H.
  - cbn [fold_left].
    destruct (existsb (String.eqb (group_name (req item))) names) eqn:Hex.
    + destruct (IH names Hnodup) as [Hnd Hin]. split; [exact Hnd|].
      intros g. rewrite Hin. split.
      * intros [H|(it & Hit & Hg)]; [left; exact H|].
        right. exists it. split; [right; exact Hit | exact Hg].
      * intros [H|(it & [->|Hit] & Hg)]; [left; exact H| |].
        -- left. apply existsb_exists in Hex as (g' & Hg' & Heq).
           apply String.eqb_eq in Heq. congruence.
        -- right. exists it. split; assumption.
    + assert (Hfresh : ~ In (group_name (req item)) names).
      { intros Hin.
        assert (Htrue : existsb (String.eqb (group_name (req item))) names = true).
        { apply existsb_exists.
          exists (group_name (req item)). split; [exact Hin | apply String.eqb_refl]. }
        rewrite Htrue in Hex. discriminate. }
      assert (Hnodup' : NoDup (names ++ [group_name (req item)])).
      { apply NoDup_app. split; [exact Hnodup|]. split.
        - intros x Hx Hx'. apply list_elem_of_In in Hx.
          apply list_elem_of_In in Hx'. destruct Hx' as [<-|[]]. contradiction.
        - apply NoDup_singleton. }
      destruct (IH _ Hnodup') as [Hnd Hin]. split; [exact Hnd|].
      intros g. rewrite Hin. rewrite in_app_iff. cbn [In]. split.
      * intros [[H|[<-|[]]]|(it & Hit & Hg)].
        -- left; exact H.
        -- right. exists item. split; [left; reflexivity | reflexivity].
        -- right. exists it. split; [right; exact Hit | exact Hg].
      * intros [H|(it & [->|Hit] & Hg)].
        -- left; left; exact H.
        -- left; right; left; exact Hg.
        -- right. exists it. split; assumption.
Qed.

(** X5: [getGroupNames] lists every group name that some item of the request
    list targets, no other name, and each name once. *)
Theorem getGroupNames_distinct_and_exact (req_list : MotionSequenceRequest) :
  NoDup (getGroupNames req_list)
  /\ forall g, In g (getGroupNames req_list) <->
               exists item, In item (items req_list) /\ group_name (req item) = g.
Proof.
  destruct (getGroupNames_fold (items req_list) [] (NoDup_nil_2 (A:=string))) as [Hnd Hin].
  split; [exact Hnd|]. intros g.
  unfold getGroupNames. rewrite (Hin g). split.
  - intros [[]|H]. exact H.
  - intros H. right. exact H.
Qed.

(** ** The empty request list and the blend-radius table *)

(** X6: [extractBlendRadii] throws [std::out_of_range] exactly on the empty
    request list, where the loop bound [size() - 1] wraps around and the
    first item access is out of range. *)
Theorem extractBlendRadii_out_of_range_iff_empty (model : RobotModel)
    (req_list : MotionSequenceRequest) :
  extractBlendRadii model req_list = Throw std_out_of_range <-> items req_list = [].
Proof.
  split.
  - intros Hthrow.
    destruct (items req_list) as [|item rest] eqn:Hitems; [reflexivity|].
    exfalso.
    assert (Hlen : (1 <= length (items req_list))%nat) by (rewrite Hitems; cbn; lia).
    destruct (extractBlendRadii_loop_inv model (items req_list)
                (S (length (items req_list))) 0 (replicate (length (items req_list)) d0)
                Hlen ltac:(lia) ltac:(lia) (radii_upto_init model (items req_list)))
      as (radii & Hrun & _).
    unfold extractBlendRadii in Hthrow. cbn zeta in Hthrow.
    change (Z.of_nat 0) with 0 in Hrun. rewrite Hrun in Hthrow. discriminate.
  - intros Hempty. unfold extractBlendRadii. rewrite Hempty. reflexivity.
Qed.

(** ** Radii that are not numbers *)

Lemma nan_not_geq_zero (r : double) :
  PrimFloat.is_nan r = true -> PrimFloat.leb d0 r = false.
Proof.
  unfold PrimFloat.is_nan.
  rewrite FloatAxioms.eqb_spec, FloatAxioms.leb_spec, Prim2SF_d0.
  unfold SFeqb, SFleb.
  destruct (Prim2SF r) as [s| s | |s m e]; cbn.
  - discriminate.
  - destruct s; discriminate.
  - reflexivity.
  - destruct s; rewrite Z.compare_refl, Pos.compare_cont_refl; discriminate.
Qed.

(** X7: a request list with an item whose blend radius is NaN is rejected
    like one with a negative radius: [solve] fails with
    [NegativeBlendRadiusException] and leaves the world as it was. *)
Theorem solve_nan_radius (model_ : RobotModel) (planning_scene : PlanningScene)
    (planning_pipeline : PlanningPipeline) (req_list : MotionSequenceRequest) (w : World) :
  (exists item, In item (items req_list) /\ PrimFloat.is_nan (blend_radius item) = true) ->
  solve model_ planning_scene planning_pipeline req_list w
  = (Throw (NegativeBlendRadiusException "All blending radii MUST be non negative"), w).
Proof.
  intros (item & Hin & Hnan).
  assert (Hcheck : checkForNegativeRadii req_list
                   = Throw (NegativeBlendRadiusException
                              "All blending radii MUST be non negative")).
  { unfold checkForNegativeRadii.
    destruct (forallb _ (items req_list)) eqn:Hall; [|reflexivity].
    rewrite forallb_forall in Hall. specialize (Hall item Hin). cbn beta in Hall.
    rewrite (nan_not_geq_zero _ Hnan) in Hall. discriminate. }
  unfold solve. destruct (items req_list) as [|item0 rest]; [destruct Hin|].
  unfold mbind, lift. rewrite Hcheck. reflexivity.
Qed.

Lemma solve_nan_radius_witness :
  PrimFloat.is_nan (blend_radius (sample_item "arm" no_start_state PrimFloat.nan)) = true
  /\ fst (solve sample_model sample_scene arm_only_pipeline
            {| items := [sample_item "arm" no_start_state PrimFloat.nan;
                         sample_item "arm" no_start_state 0%float] |} sample_world)
     = Throw (NegativeBlendRadiusException "All blending radii MUST be non negative").
Proof.
  split; [reflexivity|].
  rewrite (solve_nan_radius sample_model sample_scene arm_only_pipeline
             {| items := [sample_item "arm" no_start_state PrimFloat.nan;
                          sample_item "arm" no_start_state 0%float] |} sample_world).
  - reflexivity.
  - exists (sample_item "arm" no_start_state PrimFloat.nan).
    split; [left; reflexivity | reflexivity].
Defined.

(** ** What sequence planning returns *)

Lemma solveSequenceItems_loop_builder planning_scene planning_pipeline
    (seq_items : list MotionSequenceItem) :
  forall (motion_plan_responses : list MotionPlanResponse) (w : World),
    plan_comp_builder_
      (snd (solveSequenceItems_loop planning_scene planning_pipeline seq_items
              motion_plan_responses w))
    = plan_comp_builder_ w.
Proof.
  induction seq_items as [|seq_item rest IH]; intros acc w; [reflexivity|].
  cbn [solveSequenceItems_loop]. unfold mbind, lift, generatePlan.
  destruct (setStartState acc _ _) as [start| e | |]; try reflexivity.
  destruct (negb _); [reflexivity|].
  rewrite IH. reflexivity.
Qed.

Lemma solveSequenceItems_loop_throws planning_scene planning_pipeline
    (seq_items : list MotionSequenceItem) :
  forall (motion_plan_responses : list MotionPlanResponse) (w : World) (e : Exception),
    fst (solveSequenceItems_loop planning_scene planning_pipeline seq_items
           motion_plan_responses w) = Throw e ->
    exists val,
      e = PlanningPipelineException ("Could not solve request" ++ newline) val
      /\ val <> SUCCESS.
Proof.
  induction seq_items as [|seq_item rest IH]; intros acc w e Hrun; [discriminate|].
  cbn [solveSequenceItems_loop] in Hrun. unfold mbind, lift, generatePlan in Hrun.
  unfold setStartState, getPreviousEndState, getLastWayPoint in Hrun.
  assert (Hscan : forall l g e', getPreviousEndState_scan l g <> Throw e').
  { induction l as [|it l IHl]; intros g e'; cbn [getPreviousEndState_scan];
      [discriminate|].
    destruct (String.eqb _ g); [|apply IHl].
    unfold getLastWayPoint. destruct (last _); discriminate. }
  destruct (getPreviousEndState_scan (rev acc) (group_name (req seq_item)))
    as [[state|]| e' | |] eqn:Hprev; cbn [rbind fst] in Hrun; try discriminate.
  - destruct (negb _) eqn:Hcode; [|exact (IH _ _ _ Hrun)].
    cbn [fst] in Hrun. injection Hrun as <-. eexists. split; [reflexivity|].
    apply negb_true_iff, Z.eqb_neq in Hcode. exact Hcode.
  - destruct (negb _) eqn:Hcode; [|exact (IH _ _ _ Hrun)].
    cbn [fst] in Hrun. injection Hrun as <-. eexists. split; [reflexivity|].
    apply negb_true_iff, Z.eqb_neq in Hcode. exact Hcode.
  - exfalso. exact (Hscan _ _ _ Hprev).
Qed.

(** How a successful run of the loop relates items, requests and responses:
    one request and one response per item, each response being what the
    planner returned, with [true] and the code SUCCESS, for that request
    after the requests before it. *)
Lemma solveSequenceItems_loop_success (planning_scene : PlanningScene)
    (planning_pipeline : PlanningPipeline) (seq_items : list MotionSequenceItem) :
  forall (motion_plan_responses responses : list MotionPlanResponse) (w w' : World),
    solveSequenceItems_loop planning_scene planning_pipeline seq_items
      motion_plan_responses w = (Ok responses, w') ->
    exists requests new_responses,
      responses = motion_plan_responses ++ new_responses
      /\ generatePlan_calls w' = generatePlan_calls w ++ requests
      /\ length requests = length seq_items
      /\ length new_responses = length seq_items
      /\ forall (k : nat) item,
           seq_items !! k = Some item ->
           exists request res,
             requests !! k = Some request
             /\ new_responses !! k = Some res
             /\ group_name request = group_name (req item)
             /\ goal_constraints request = goal_constraints (req item)
             /\ planning_pipeline (generatePlan_calls w ++ take k requests)
                  planning_scene request = (true, res)
             /\ error_code res = SUCCESS.
Proof.
  induction seq_items as [|seq_item rest IH]; intros acc responses w w' Hrun.
  - cbn in Hrun. injection Hrun as <- <-. exists [], [].
    rewrite !app_nil_r. repeat split; try reflexivity.
    intros k item Hk. discriminate.
  - cbn [solveSequenceItems_loop] in Hrun. unfold mbind, lift, generatePlan in Hrun.
    destruct (setStartState acc _ _) as [start| e | |]; try discriminate.
    set (request := with_start_state (req seq_item) start) in *.
    destruct (planning_pipeline (generatePlan_calls w) planning_scene request)
      as [ok answer] eqn:Hplan.
    cbn [fst snd] in Hrun.
    destruct ok; cbn [negb] in Hrun.
    + destruct (Z.eqb_spec (error_code answer) SUCCESS) as [Hcode|Hcode];
        cbn [negb] in Hrun; [|discriminate].
      destruct (IH _ _ _ _ Hrun) as (requests & news & Hresp & Hcalls & Hlr & Hln & Hall).
      cbn [generatePlan_calls] in Hcalls, Hall.
      exists (request :: requests), (answer :: news).
      split; [rewrite Hresp, <- app_assoc; reflexivity|].
      split; [rewrite Hcalls, <- app_assoc; reflexivity|].
      split; [cbn; lia|]. split; [cbn; lia|].
      intros [|k] item Hk; cbn in Hk.
      * injection Hk as <-. exists request, answer.
        cbn [take]. rewrite app_nil_r.
        repeat split; try reflexivity; assumption.
      * destruct (Hall k item Hk) as (rq & rs & Hrq & Hrs & Hg & Hgoal & Hp & Hc).
        exists rq, rs. cbn [take]. rewrite <- app_assoc in Hp.
        repeat split; assumption.
    + cbn in Hrun. discriminate.
Qed.

(** X8: when [solveSequenceItems] returns, it returns one response per item,
    in order, and has consulted the planner exactly once per item, in order.
    Each request keeps its item's group and goal, each response is the one
    the planner returned for that request, together with [true] and with
    the code SUCCESS, and the builder has not been touched. *)
Theorem solveSequenceItems_success (planning_scene : PlanningScene)
    (planning_pipeline : PlanningPipeline) (req_list : MotionSequenceRequest)
    (w w' : World) (responses : list MotionPlanResponse) :
  solveSequenceItems planning_scene planning_pipeline req_list w = (Ok responses, w') ->
  length responses = length (items req_list)
  /\ plan_comp_builder_ w' = plan_comp_builder_ w
  /\ exists requests,
       generatePlan_calls w' = generatePlan_calls w ++ requests
       /\ length requests = length (items req_list)
       /\ forall (k : nat) item,
            items req_list !! k = Some item ->
            exists request res,
              requests !! k = Some request
              /\ responses !! k = Some res
              /\ group_name request = group_name (req item)
              /\ goal_constraints request = goal_constraints (req item)
              /\ planning_pipeline (generatePlan_calls w ++ take k requests)
                   planning_scene request = (true, res)
              /\ error_code res = SUCCESS.
Proof.
  unfold solveSequenceItems. intros Hrun.
  pose proof (solveSequenceItems_loop_builder planning_scene planning_pipeline
                (items req_list) [] w) as Hbuilder.
  rewrite Hrun in Hbuilder. cbn [snd] in Hbuilder.
  destruct (solveSequenceItems_loop_success _ _ _ _ _ _ _ Hrun)
    as (requests & news & Hresp & Hcalls & Hlr & Hln & Hall).
  cbn [app] in Hresp. subst responses.
  split; [exact Hln|]. split; [exact Hbuilder|].
  exists requests. split; [exact Hcalls|]. split; [exact Hlr | exact Hall].
Qed.

Lemma solveSequenceItems_success_witness :
  solveSequenceItems sample_scene (scripted_pipeline sample_script4) sample_sequence4
    sample_world
  = (Ok (map snd sample_script4),
     snd (solveSequenceItems sample_scene (scripted_pipeline sample_script4)
            sample_sequence4 sample_world))
  /\ length (map snd sample_script4) = length (items sample_sequence4).
Proof.
  assert (Hrun : solveSequenceItems sample_scene (scripted_pipeline sample_script4)
                   sample_sequence4 sample_world
                 = (Ok (map snd sample_script4),
                    snd (solveSequenceItems sample_scene (scripted_pipeline sample_script4)
                           sample_sequence4 sample_world))) by reflexivity.
  split; [exact Hrun|].
  exact (proj1 (solveSequenceItems_success _ _ _ _ _ _ Hrun)).
Defined.

(** X9: the only exception [solveSequenceItems] raises is
    [PlanningPipelineException], with its fixed message and an error code
    that is never SUCCESS. *)
Theorem solveSequenceItems_throws_planning_failure (planning_scene : PlanningScene)
    (planning_pipeline : PlanningPipeline) (req_list : MotionSequenceRequest)
    (w : World) (e : Exception) :
  fst (solveSequenceItems planning_scene planning_pipeline req_list w) = Throw e ->
  exists val,
    e = PlanningPipelineException ("Could not solve request" ++ newline) val
    /\ val <> SUCCESS.
Proof.
  unfold solveSequenceItems. apply solveSequenceItems_loop_throws.
Qed.

Lemma solveSequenceItems_throws_planning_failure_witness :
  fst (solveSequenceItems sample_scene arm_only_pipeline
         {| items := [sample_item "gripper" no_start_state 0%float] |} sample_world)
  = Throw (PlanningPipelineException ("Could not solve request" ++ newline) FAILURE)
  /\ exists val,
       PlanningPipelineException ("Could not solve request" ++ newline) FAILURE
       = PlanningPipelineException ("Could not solve request" ++ newline) val
       /\ val <> SUCCESS.
Proof.
  split; [reflexivity|].
  apply (solveSequenceItems_throws_planning_failure sample_scene arm_only_pipeline
           {| items := [sample_item "gripper" no_start_state 0%float] |} sample_world).
  reflexivity.
Defined.

(** ** Zero radii and the overlap check *)

Lemma is_zero_Prim2SF (r : double) :
  PrimFloat.eqb r d0 = true -> exists s, Prim2SF r = S754_zero s.
Proof.
  rewrite FloatAxioms.eqb_spec, Prim2SF_d0. unfold SFeqb.
  destruct (Prim2SF r) as [s| s | |s m e]; cbn; try destruct s; try discriminate;
    intros _; eexists; reflexivity.
Qed.

Lemma zero_plus_zero (a b : double) :
  PrimFloat.eqb a d0 = true -> PrimFloat.eqb b d0 = true ->
  PrimFloat.eqb (PrimFloat.add a b) d0 = true.
Proof.
  intros Ha Hb.
  destruct (is_zero_Prim2SF a Ha) as [sa Hsa].
  destruct (is_zero_Prim2SF b Hb) as [sb Hsb].
  rewrite FloatAxioms.eqb_spec, FloatAxioms.add_spec, Hsa, Hsb, Prim2SF_d0.
  destruct sa, sb; reflexivity.
Qed.

(** A loop over a fixed range whose every iteration succeeds. *)
Lemma for_size_t_unit_ok (bound : nat) (body : Z -> unit -> Result unit) :
  (forall k, (k < bound)%nat -> body (Z.of_nat k) tt = Ok tt) ->
  forall (fuel k : nat),
    (bound - k < fuel)%nat ->
    for_size_t fuel (Z.of_nat k) (fun _ => Z.of_nat bound) body tt = Ok tt.
Proof.
  intros Hbody. induction fuel as [|fuel IH]; intros k Hfuel; [lia|].
  cbn [for_size_t].
  destruct (Z.ltb_spec (Z.of_nat k) (Z.of_nat bound)) as [Hlt|Hge]; [|reflexivity].
  rewrite Hbody by lia. cbn [rbind].
  replace (Z.of_nat k + 1) with (Z.of_nat (S k)) by lia.
  apply IH. lia.
Qed.

Lemma zero_radii_pass_overlap_check (model_ : RobotModel)
    (resp_cont : list MotionPlanResponse) (radii : list double) :
  (length resp_cont - 1 <= length radii)%nat ->
  (forall r, In r radii -> PrimFloat.eqb r d0 = true) ->
  checkForOverlappingRadii model_ resp_cont radii = Ok tt.
Proof.
  intros Hlong Hzero.
  destruct (Nat.lt_ge_cases (length resp_cont) 3) as [Hshort|Hlen].
  - unfold checkForOverlappingRadii.
    destruct resp_cont as [|resp rest] eqn:Hresp; [reflexivity|].
    rewrite <- Hresp in *. unfold size.
    destruct (Z.ltb_spec (Z.of_nat (length resp_cont)) 3) as [_|Hge]; [reflexivity | lia].
  - rewrite (checkForOverlappingRadii_long _ _ _ Hlen).
    unfold size. rewrite size_t_sub_no_wrap by lia.
    replace (Z.of_nat (length resp_cont) - 2) with (Z.of_nat (length resp_cont - 2)) by lia.
    apply (for_size_t_unit_ok (length resp_cont - 2) _) with (k := 0%nat); [|lia].
    intros k Hk.
    destruct (lookup_lt_is_Some_2 resp_cont k ltac:(lia)) as [resp_A HA].
    destruct (lookup_lt_is_Some_2 resp_cont (S k) ltac:(lia)) as [resp_B HB].
    destruct (lookup_lt_is_Some_2 radii k ltac:(lia)) as [radii_A HrA].
    destruct (lookup_lt_is_Some_2 radii (S k) ltac:(lia)) as [radii_B HrB].
    unfold checkForOverlappingRadii_body.
    rewrite (vector_at_lookup _ _ _ HA), (vector_at_lookup _ _ _ HrA).
    replace (Z.of_nat k + 1) with (Z.of_nat (S k)) by lia.
    rewrite (vector_at_lookup _ _ _ HB), (vector_at_lookup _ _ _ HrB).
    cbn [rbind]. unfold checkRadiiForOverlap.
    destruct (negb _); [reflexivity|].
    rewrite zero_plus_zero; [reflexivity | |].
    + apply Hzero, list_elem_of_In, (list_elem_of_lookup_2 _ k), HrA.
    + apply Hzero, list_elem_of_In, (list_elem_of_lookup_2 _ (S k)), HrB.
Qed.

(** X10: when every radius of the table is zero, the overlap check passes
    whatever the responses are: no end point is looked at, so it passes even
    for responses whose trajectories have no waypoint. *)
Theorem checkForOverlappingRadii_zero_radii (model_ : RobotModel)
    (resp_cont : list MotionPlanResponse) (radii : list double) :
  (length resp_cont - 1 <= length radii)%nat ->
  (forall r, In r radii -> PrimFloat.eqb r d0 = true) ->
  checkForOverlappingRadii model_ resp_cont radii = Ok tt.
Proof.
  apply zero_radii_pass_overlap_check.
Qed.

Lemma checkForOverlappingRadii_zero_radii_witness :
  (length [{| trajectory := no_trajectory; error_code := SUCCESS |};
           {| trajectory := no_trajectory; error_code := SUCCESS |};
           {| trajectory := no_trajectory; error_code := SUCCESS |}] - 1
   <= length [d0; (-0)%float; d0])%nat
  /\ checkForOverlappingRadii sample_model
       [{| trajectory := no_trajectory; error_code := SUCCESS |};
        {| trajectory := no_trajectory; error_code := SUCCESS |};
        {| trajectory := no_trajectory; error_code := SUCCESS |}]
       [d0; (-0)%float; d0] = Ok tt.
Proof.
  split; [cbn; lia|].
  apply checkForOverlappingRadii_zero_radii; [cbn; lia|].
  intros r [<-|[<-|[<-|[]]]]; reflexivity.
Defined.

(** ** The exceptions of [solve] *)

Lemma extractBlendRadii_defined (model : RobotModel) (req_list : MotionSequenceRequest) :
  items req_list <> [] ->
  exists radii,
    extractBlendRadii model req_list = Ok radii
    /\ length radii = length (items req_list).
Proof.
  intros Hne.
  assert (Hlen : (1 <= length (items req_list))%nat).
  { destruct (items req_list); [contradiction | cbn; lia]. }
  destruct (extractBlendRadii_loop_inv model (items req_list)
              (S (length (items req_list))) 0 (replicate (length (items req_list)) d0)
              Hlen ltac:(lia) ltac:(lia) (radii_upto_init model (items req_list)))
    as (radii & Hrun & Hlength & _).
  exists radii. split; [exact Hrun | exact Hlength].
Qed.

Lemma checkForOverlappingRadii_body_throws (model_ : RobotModel)
    (resp_cont : list MotionPlanResponse) (radii : list double) (k : nat) (e : Exception) :
  (length resp_cont - 1 <= length radii)%nat ->
  (S (S k) < length resp_cont)%nat ->
  checkForOverlappingRadii_body model_ resp_cont radii (Z.of_nat k) tt = Throw e ->
  e = OverlappingBlendRadiiException (overlap_message (Z.of_nat k)).
Proof.
  intros Hlong Hk.
  destruct (lookup_lt_is_Some_2 resp_cont k ltac:(lia)) as [resp_A HA].
  destruct (lookup_lt_is_Some_2 resp_cont (S k) ltac:(lia)) as [resp_B HB].
  destruct (lookup_lt_is_Some_2 radii k ltac:(lia)) as [radii_A HrA].
  destruct (lookup_lt_is_Some_2 radii (S k) ltac:(lia)) as [radii_B HrB].
  unfold checkForOverlappingRadii_body.
  rewrite (vector_at_lookup _ _ _ HA), (vector_at_lookup _ _ _ HrA).
  replace (Z.of_nat k + 1) with (Z.of_nat (S k)) by lia.
  rewrite (vector_at_lookup _ _ _ HB), (vector_at_lookup _ _ _ HrB).
  cbn [rbind]. unfold checkRadiiForOverlap, getLastWayPoint.
  destruct (negb _); [discriminate|].
  destruct (PrimFloat.eqb _ _); [discriminate|].
  destruct (last (way_points (trajectory resp_A))); [|discriminate].
  destruct (last (way_points (trajectory resp_B))); [|discriminate].
  cbn [rbind]. destruct (PrimFloat.leb _ _); [|discriminate].
  intros Hthrow. injection Hthrow as <-. reflexivity.
Qed.

Lemma checkForOverlappingRadii_throws (model_ : RobotModel)
    (resp_cont : list MotionPlanResponse) (radii : list double) (e : Exception) :
  (length resp_cont - 1 <= length radii)%nat ->
  checkForOverlappingRadii model_ resp_cont radii = Throw e ->
  exists i, (i <= length resp_cont - 3)%nat
            /\ e = OverlappingBlendRadiiException (overlap_message (Z.of_nat i)).
Proof.
  intros Hlong Hthrow.
  destruct (Nat.lt_ge_cases (length resp_cont) 3) as [Hshort|Hlen].
  - unfold checkForOverlappingRadii in Hthrow.
    destruct resp_cont as [|resp rest] eqn:Hresp; [discriminate|].
    rewrite <- Hresp in *. unfold size in Hthrow.
    destruct (Z.ltb_spec (Z.of_nat (length resp_cont)) 3) as [_|Hge];
      [discriminate | lia].
  - rewrite (checkForOverlappingRadii_long _ _ _ Hlen) in Hthrow.
    unfold size in Hthrow. rewrite size_t_sub_no_wrap in Hthrow by lia.
    assert (Hloop : forall (fuel k : nat),
               for_size_t fuel (Z.of_nat k) (fun _ => Z.of_nat (length resp_cont) - 2)
                 (checkForOverlappingRadii_body model_ resp_cont radii) tt = Throw e ->
               exists i, (i <= length resp_cont - 3)%nat
                         /\ e = OverlappingBlendRadiiException
                                  (overlap_message (Z.of_nat i)));
      [|exact (Hloop (length resp_cont) 0%nat Hthrow)].
    clear Hthrow.
    induction fuel as [|fuel IH]; intros k Hthrow; [discriminate|].
    cbn [for_size_t] in Hthrow.
    destruct (Z.ltb_spec (Z.of_nat k) (Z.of_nat (length resp_cont) - 2)) as [Hlt|_];
      [|discriminate].
    destruct (checkForOverlappingRadii_body model_ resp_cont radii (Z.of_nat k) tt)
      as [[]| e' | |] eqn:Hbody; cbn [rbind] in Hthrow; try discriminate.
    + replace (Z.of_nat k + 1) with (Z.of_nat (S k)) in Hthrow by lia.
      exact (IH _ Hthrow).
    + injection Hthrow as ->. exists k. split; [lia|].
      apply (checkForOverlappingRadii_body_throws model_ resp_cont radii k e Hlong);
        [lia | exact Hbody].
Qed.

Lemma solve_dedup_all_no_throw (res_vec : list RobotTrajectory) (e : Exception) :
  solve_dedup_all res_vec <> Throw e.
Proof.
  induction res_vec as [|traj rest IH]; cbn [solve_dedup_all]; [discriminate|].
  destruct (solve_dedup traj) as [traj'| e' | |] eqn:Hdedup; cbn [rbind];
    try discriminate.
  - destruct (solve_dedup_all rest) as [rest'| e' | |]; cbn [rbind];
      try discriminate. exact IH.
  - exfalso. exact (solve_dedup_no_throw _ _ Hdedup).
Qed.

(** Where an exception of [solve] comes from, and the world it leaves. *)
Lemma solve_throw_cases (model_ : RobotModel) (planning_scene : PlanningScene)
    (planning_pipeline : PlanningPipeline) (req_list : MotionSequenceRequest)
    (w : World) (e : Exception) :
  fst (solve model_ planning_scene planning_pipeline req_list w) = Throw e ->
  let w' := snd (solve model_ planning_scene planning_pipeline req_list w) in
  (checkForNegativeRadii req_list = Throw e /\ w' = w)
  \/ (checkLastBlendRadiusZero req_list = Throw e /\ w' = w)
  \/ (checkStartStates req_list = Throw e /\ w' = w)
  \/ (fst (solveSequenceItems planning_scene planning_pipeline req_list w) = Throw e
      /\ w' = snd (solveSequenceItems planning_scene planning_pipeline req_list w))
  \/ (exists resp_cont w1 radii,
         solveSequenceItems planning_scene planning_pipeline req_list w
         = (Ok resp_cont, w1)
         /\ extractBlendRadii model_ req_list = Ok radii
         /\ length radii = length resp_cont
         /\ checkForOverlappingRadii model_ resp_cont radii = Throw e
         /\ w' = w1).
Proof.
  cbn zeta.
  destruct (items req_list) as [|item0 rest0] eqn:Hitems.
  { unfold solve. rewrite Hitems. discriminate. }
  assert (Hne : items req_list <> []) by (rewrite Hitems; discriminate).
  destruct (extractBlendRadii_defined model_ req_list Hne) as (radii & Hextract & Hlr).
  pose proof (solveSequenceItems_loop_length planning_scene planning_pipeline
                (items req_list) [] ) as Hlength.
  cbn zeta.
  unfold solve. rewrite Hitems. unfold mbind, lift.
  destruct (checkForNegativeRadii req_list) as [[]| e1 | |];
    cbn [fst snd]; try discriminate;
    [|intros H; injection H as ->; left; split; reflexivity].
  destruct (checkLastBlendRadiusZero req_list) as [[]| e1 | |];
    cbn [fst snd]; try discriminate;
    [|intros H; injection H as ->; right; left; split; reflexivity].
  destruct (checkStartStates req_list) as [[]| e1 | |];
    cbn [fst snd]; try discriminate;
    [|intros H; injection H as ->; right; right; left; split; reflexivity].
  unfold solveSequenceItems in *.
  destruct (solveSequenceItems_loop planning_scene planning_pipeline (items req_list) [] w)
    as [[resp_cont| e1 | |] w1] eqn:Hplan;
    cbn [fst snd]; try discriminate;
    [|intros H; injection H as ->; right; right; right; left; split; reflexivity].
  specialize (Hlength _ _ _ Hplan). cbn [length Nat.add] in Hlength.
  rewrite Hextract.
  destruct (checkForOverlappingRadii model_ resp_cont radii) as [[]| e1 | |] eqn:Hoverlap;
    cbn [fst snd]; try discriminate;
    [|intros H; injection H as ->; right; right; right; right;
      exists resp_cont, w1, radii; repeat split; try reflexivity;
      [lia | exact Hoverlap]].
  unfold with_builder, build. cbn [plan_comp_builder_ generatePlan_calls].
  destruct (solve_append_all_entries planning_scene resp_cont radii
              (builder_reset (plan_comp_builder_ w1)) ltac:(lia))
    as (builder & Happend & _).
  rewrite Happend. cbn [plan_comp_builder_].
  destruct (solve_dedup_all (builder_build builder)) as [res| e1 | |] eqn:Hdedup;
    cbn [fst]; try discriminate.
  exfalso. exact (solve_dedup_all_no_throw _ _ Hdedup).
Qed.

Lemma checkForNegativeRadii_throws (req_list : MotionSequenceRequest) (e : Exception) :
  checkForNegativeRadii req_list = Throw e ->
  e = NegativeBlendRadiusException "All blending radii MUST be non negative".
Proof.
  unfold checkForNegativeRadii. destruct (negb _); [|discriminate].
  intros H. injection H as <-. reflexivity.
Qed.

Lemma checkLastBlendRadiusZero_throws (req_list : MotionSequenceRequest) (e : Exception) :
  checkLastBlendRadiusZero req_list = Throw e ->
  e = LastBlendRadiusNotZeroException "The last blending radius must be zero".
Proof.
  unfold checkLastBlendRadiusZero. destruct (last _); [|discriminate].
  destruct (negb _); [|discriminate].
  intros H. injection H as <-. reflexivity.
Qed.

Lemma checkStartStates_throws (req_list : MotionSequenceRequest) (e : Exception) :
  checkStartStates req_list = Throw e -> exists what, e = StartStateSetException what.
Proof.
  unfold checkStartStates. destruct (size _ <=? 1); [discriminate|].
  destruct (checkStartStates_loop_result req_list (getGroupNames req_list))
    as [Hok | (what & Hthrow)].
  - rewrite Hok. discriminate.
  - rewrite Hthrow. intros H. injection H as <-. exists what. reflexivity.
Qed.

(** X11: the exceptions [solve] can raise are the three validation
    exceptions, the planning exception with a code other than SUCCESS, and
    the overlap exception naming a pair of commands of the list; it never
    lets a [std::out_of_range] of its [at()] accesses escape. *)
Theorem solve_throws_only (model_ : RobotModel) (planning_scene : PlanningScene)
    (planning_pipeline : PlanningPipeline) (req_list : MotionSequenceRequest)
    (w : World) (e : Exception) :
  fst (solve model_ planning_scene planning_pipeline req_list w) = Throw e ->
  (e = NegativeBlendRadiusException "All blending radii MUST be non negative"
   \/ e = LastBlendRadiusNotZeroException "The last blending radius must be zero"
   \/ (exists what, e = StartStateSetException what)
   \/ (exists val,
          e = PlanningPipelineException ("Could not solve request" ++ newline) val
          /\ val <> SUCCESS)
   \/ (exists i : nat,
          (i + 3 <= length (items req_list))%nat
          /\ e = OverlappingBlendRadiiException (overlap_message (Z.of_nat i))))
  /\ e <> std_out_of_range.
Proof.
  intros Hthrow.
  assert (Hkinds :
    e = NegativeBlendRadiusException "All blending radii MUST be non negative"
    \/ e = LastBlendRadiusNotZeroException "The last blending radius must be zero"
    \/ (exists what, e = StartStateSetException what)
    \/ (exists val,
           e = PlanningPipelineException ("Could not solve request" ++ newline) val
           /\ val <> SUCCESS)
    \/ (exists i : nat,
           (i + 3 <= length (items req_list))%nat
           /\ e = OverlappingBlendRadiiException (overlap_message (Z.of_nat i)))).
  { destruct (solve_throw_cases _ _ _ _ _ _ Hthrow)
      as [[H _]|[[H _]|[[H _]|[[H _]|(resp & w1 & radii & Hplan & _ & Hlr & H & _)]]]].
    - left. exact (checkForNegativeRadii_throws _ _ H).
    - right; left. exact (checkLastBlendRadiusZero_throws _ _ H).
    - right; right; left. exact (checkStartStates_throws _ _ H).
    - right; right; right; left.
      exact (solveSequenceItems_loop_throws _ _ _ _ _ _ H).
    - right; right; right; right.
      destruct (checkForOverlappingRadii_throws model_ resp radii e ltac:(lia) H) as (i & Hi & He).
      assert (Hlen : (3 <= length resp)%nat).
      { destruct (Nat.lt_ge_cases (length resp) 3) as [Hshort|Hge]; [|exact Hge].
        exfalso. unfold checkForOverlappingRadii in H.
        destruct resp as [|r0 rest] eqn:Hresp; [discriminate|].
        rewrite <- Hresp in *. unfold size in H.
        destruct (Z.ltb_spec (Z.of_nat (length resp)) 3) as [_|Hge];
          [discriminate | lia]. }
      unfold solveSequenceItems in Hplan.
      apply solveSequenceItems_loop_length in Hplan. cbn [length Nat.add] in Hplan.
      exists i. split; [lia | exact He]. }
  split; [exact Hkinds|].
  destruct Hkinds as [->|[->|[(what & ->)|[(val & -> & _)|(i & _ & ->)]]]]; discriminate.
Qed.

Lemma solve_throws_only_witness :
  fst (solve sample_model sample_scene arm_only_pipeline sample_sequence4 sample_world)
  = Throw (OverlappingBlendRadiiException
             "Overlapping blend radii between command [0] and [1].")
  /\ OverlappingBlendRadiiException "Overlapping blend radii between command [0] and [1]."
     <> std_out_of_range.
Proof.
  assert (Hrun : fst (solve sample_model sample_scene arm_only_pipeline sample_sequence4
                        sample_world)
                 = Throw (OverlappingBlendRadiiException
                            "Overlapping blend radii between command [0] and [1]."))
    by reflexivity.
  split; [exact Hrun|].
  exact (proj2 (solve_throws_only _ _ _ _ _ _ Hrun)).
Defined.

(** X12: when [solve] fails with one of the three validation exceptions, it
    leaves the world as it found it: the planner has not been consulted and
    the builder has not been reset. *)
Theorem solve_validation_failure_leaves_world (model_ : RobotModel)
    (planning_scene : PlanningScene) (planning_pipeline : PlanningPipeline)
    (req_list : MotionSequenceRequest) (w : World) (e : Exception) :
  fst (solve model_ planning_scene planning_pipeline req_list w) = Throw e ->
  (exists what, e = NegativeBlendRadiusException what
                \/ e = LastBlendRadiusNotZeroException what
                \/ e = StartStateSetException what) ->
  snd (solve model_ planning_scene planning_pipeline req_list w) = w.
Proof.
  intros Hthrow (what & Hkind).
  destruct (solve_throw_cases _ _ _ _ _ _ Hthrow)
    as [[_ H]|[[_ H]|[[_ H]|[[H _]|(resp & w1 & radii & _ & _ & Hlr & H & _)]]]];
    try exact H; exfalso.
  - destruct (solveSequenceItems_loop_throws _ _ _ _ _ _ H) as (val & -> & _).
    destruct Hkind as [Hk|[Hk|Hk]]; discriminate.
  - destruct (checkForOverlappingRadii_throws model_ resp radii e ltac:(lia) H) as (i & _ & ->).
    destruct Hkind as [Hk|[Hk|Hk]]; discriminate.
Qed.

Lemma solve_validation_failure_leaves_world_witness :
  fst (solve sample_model sample_scene arm_only_pipeline
         {| items := [sample_item "arm" no_start_state 0%float;
                      sample_item "arm" no_start_state 0.5%float] |} sample_world)
  = Throw (LastBlendRadiusNotZeroException "The last blending radius must be zero")
  /\ snd (solve sample_model sample_scene arm_only_pipeline
            {| items := [sample_item "arm" no_start_state 0%float;
                         sample_item "arm" no_start_state 0.5%float] |} sample_world)
     = sample_world.
Proof.
  assert (Hrun : fst (solve sample_model sample_scene arm_only_pipeline
                        {| items := [sample_item "arm" no_start_state 0%float;
                                     sample_item "arm" no_start_state 0.5%float] |}
                        sample_world)
                 = Throw (LastBlendRadiusNotZeroException
                            "The last blending radius must be zero")) by reflexivity.
  split; [exact Hrun|].
  apply (solve_validation_failure_leaves_world _ _ _ _ _ _ Hrun).
  eexists. right; left. reflexivity.
Defined.

(** X13: whenever [solve] raises an exception, the builder is as it was
    before the call: it is reset and fed only once validation, planning and
    the overlap check have all passed. *)
Theorem solve_failure_leaves_builder (model_ : RobotModel)
    (planning_scene : PlanningScene) (planning_pipeline : PlanningPipeline)
    (req_list : MotionSequenceRequest) (w : World) (e : Exception) :
  fst (solve model_ planning_scene planning_pipeline req_list w) = Throw e ->
  plan_comp_builder_ (snd (solve model_ planning_scene planning_pipeline req_list w))
  = plan_comp_builder_ w.
Proof.
  intros Hthrow.
  destruct (solve_throw_cases _ _ _ _ _ _ Hthrow)
    as [[_ H]|[[_ H]|[[_ H]|[[_ H]|(resp & w1 & radii & Hplan & _ & _ & _ & H)]]]];
    rewrite H; try reflexivity.
  - apply solveSequenceItems_loop_builder.
  - pose proof (solveSequenceItems_loop_builder planning_scene planning_pipeline
                  (items req_list) [] w) as Hbuilder.
    unfold solveSequenceItems in Hplan. rewrite Hplan in Hbuilder. exact Hbuilder.
Qed.

Lemma solve_failure_leaves_builder_witness :
  fst (solve sample_model sample_scene arm_only_pipeline sample_sequence4 sample_world)
  = Throw (OverlappingBlendRadiiException
             "Overlapping blend radii between command [0] and [1].")
  /\ plan_comp_builder_
       (snd (solve sample_model sample_scene arm_only_pipeline sample_sequence4
               sample_world))
     = plan_comp_builder_ sample_world.
Proof.
  assert (Hrun : fst (solve sample_model sample_scene arm_only_pipeline sample_sequence4
                        sample_world)
                 = Throw (OverlappingBlendRadiiException
                            "Overlapping blend radii between command [0] and [1]."))
    by reflexivity.
  split; [exact Hrun|].
  exact (solve_failure_leaves_builder _ _ _ _ _ _ Hrun).
Defined.

(** X14: an overlap exception is raised only after the whole sequence has
    been planned: the planner has then been consulted exactly once per item
    of the request list. *)
Theorem solve_overlap_after_planning (model_ : RobotModel)
    (planning_scene : PlanningScene) (planning_pipeline : PlanningPipeline)
    (req_list : MotionSequenceRequest) (w : World) (what : string) :
  fst (solve model_ planning_scene planning_pipeline req_list w)
  = Throw (OverlappingBlendRadiiException what) ->
  exists requests,
    generatePlan_calls (snd (solve model_ planning_scene planning_pipeline req_list w))
    = generatePlan_calls w ++ requests
    /\ length requests = length (items req_list).
Proof.
  intros Hthrow.
  destruct (solve_throw_cases _ _ _ _ _ _ Hthrow)
    as [[H _]|[[H _]|[[H _]|[[H _]|(resp & w1 & radii & Hplan & _ & _ & _ & H)]]]].
  - apply checkForNegativeRadii_throws in H. discriminate.
  - apply checkLastBlendRadiusZero_throws in H. discriminate.
  - apply checkStartStates_throws in H as (what' & H). discriminate.
  - apply solveSequenceItems_loop_throws in H as (val & H & _). discriminate.
  - rewrite H. unfold solveSequenceItems in Hplan.
    destruct (solveSequenceItems_loop_success _ _ _ _ _ _ _ Hplan)
      as (requests & news & _ & Hcalls & Hlr & _).
    exists requests. split; assumption.
Qed.

Lemma solve_overlap_after_planning_witness :
  fst (solve sample_model sample_scene arm_only_pipeline sample_sequence4 sample_world)
  = Throw (OverlappingBlendRadiiException
             "Overlapping blend radii between command [0] and [1].")
  /\ exists requests,
       generatePlan_calls
         (snd (solve sample_model sample_scene arm_only_pipeline sample_sequence4
                 sample_world))
       = generatePlan_calls sample_world ++ requests
       /\ length requests = length (items sample_sequence4).
Proof.
  assert (Hrun : fst (solve sample_model sample_scene arm_only_pipeline sample_sequence4
                        sample_world)
                 = Throw (OverlappingBlendRadiiException
                            "Overlapping blend radii between command [0] and [1]."))
    by reflexivity.
  split; [exact Hrun|].
  exact (solve_overlap_after_planning _ _ _ _ _ _ Hrun).
Defined.

Lemma extractBlendRadii_zero (model : RobotModel) (req_list : MotionSequenceRequest)
    (radii : list double) :
  (forall item, In item (items req_list) -> PrimFloat.eqb (blend_radius item) d0 = true) ->
  extractBlendRadii model req_list = Ok radii ->
  forall r, In r radii -> PrimFloat.eqb r d0 = true.
Proof.
  intros Hzero Hrun r Hr.
  destruct (items req_list) as [|item0 rest0] eqn:Hitems.
  { unfold extractBlendRadii in Hrun. rewrite Hitems in Hrun. discriminate. }
  rewrite <- Hitems in *.
  assert (Hlen : (1 <= length (items req_list))%nat) by (rewrite Hitems; cbn; lia).
  destruct (extractBlendRadii_loop_inv model (items req_list)
              (S (length (items req_list))) 0 (replicate (length (items req_list)) d0)
              Hlen ltac:(lia) ltac:(lia) (radii_upto_init model (items req_list)))
    as (radii' & Hrun' & Hlength & Hlast & Hdone).
  unfold extractBlendRadii in Hrun. cbn zeta in Hrun.
  change (Z.of_nat 0) with 0 in Hrun'. rewrite Hrun' in Hrun. injection Hrun as ->.
  apply list_elem_of_In, list_elem_of_lookup in Hr as (j & Hj).
  pose proof (lookup_lt_Some _ _ _ Hj) as Hjlen.
  destruct (Nat.lt_ge_cases j (length (items req_list) - 1)) as [Hlt|Hge].
  - destruct (lookup_lt_is_Some_2 (items req_list) j ltac:(lia)) as [item_A HA].
    destruct (lookup_lt_is_Some_2 (items req_list) (S j) ltac:(lia)) as [item_B HB].
    rewrite (Hdone j item_A item_B Hlt HA HB) in Hj. injection Hj as <-.
    destruct (isInvalidBlendRadii model item_A item_B); [reflexivity|].
    apply Hzero, list_elem_of_In, (list_elem_of_lookup_2 _ j), HA.
  - rewrite (Hlast j) in Hj by lia. injection Hj as <-. reflexivity.
Qed.

(** X15: when every item declares a zero blend radius, [solve] never raises
    the overlap exception, wherever the planned segments end. *)
Theorem solve_zero_radii_never_overlap (model_ : RobotModel)
    (planning_scene : PlanningScene) (planning_pipeline : PlanningPipeline)
    (req_list : MotionSequenceRequest) (w : World) :
  (forall item, In item (items req_list) -> PrimFloat.eqb (blend_radius item) d0 = true) ->
  forall what,
    fst (solve model_ planning_scene planning_pipeline req_list w)
    <> Throw (OverlappingBlendRadiiException what).
Proof.
  intros Hzero what Hthrow.
  destruct (solve_throw_cases _ _ _ _ _ _ Hthrow)
    as [[H _]|[[H _]|[[H _]|[[H _]|(resp & w1 & radii & _ & Hextract & Hlr & H & _)]]]].
  - apply checkForNegativeRadii_throws in H. discriminate.
  - apply checkLastBlendRadiusZero_throws in H. discriminate.
  - apply checkStartStates_throws in H as (what' & H). discriminate.
  - apply solveSequenceItems_loop_throws in H as (val & H & _). discriminate.
  - rewrite (zero_radii_pass_overlap_check model_ resp radii) in H; [discriminate|lia|].
    exact (extractBlendRadii_zero _ _ _ Hzero Hextract).
Qed.

Lemma solve_zero_radii_never_overlap_witness :
  (forall item,
      In item (items {| items := [sample_item "arm" no_start_state 0%float;
                                  sample_item "arm" no_start_state 0%float;
                                  sample_item "arm" no_start_state 0%float] |}) ->
      PrimFloat.eqb (blend_radius item) d0 = true)
  /\ fst (solve sample_model sample_scene arm_only_pipeline
            {| items := [sample_item "arm" no_start_state 0%float;
                         sample_item "arm" no_start_state 0%float;
                         sample_item "arm" no_start_state 0%float] |} sample_world)
     <> Throw (OverlappingBlendRadiiException
                 "Overlapping blend radii between command [0] and [1].").
Proof.
  assert (Hzero : forall item,
             In item (items {| items := [sample_item "arm" no_start_state 0%float;
                                         sample_item "arm" no_start_state 0%float;
                                         sample_item "arm" no_start_state 0%float] |}) ->
             PrimFloat.eqb (blend_radius item) d0 = true).
  { intros item [<-|[<-|[<-|[]]]]; reflexivity. }
  split; [exact Hzero|].
  exact (solve_zero_radii_never_overlap sample_model sample_scene arm_only_pipeline
           _ sample_world Hzero _).
Defined.

(** ** What a successful [solve] has done *)

Lemma solve_ok_cases (model_ : RobotModel) (planning_scene : PlanningScene)
    (planning_pipeline : PlanningPipeline) (req_list : MotionSequenceRequest)
    (w : World) (res_vec : list RobotTrajectory) :
  items req_list <> [] ->
  fst (solve model_ planning_scene planning_pipeline req_list w) = Ok res_vec ->
  checkForNegativeRadii req_list = Ok tt
  /\ checkLastBlendRadiusZero req_list = Ok tt
  /\ checkStartStates req_list = Ok tt
  /\ exists resp_cont w1 radii builder,
       solveSequenceItems planning_scene planning_pipeline req_list w
       = (Ok resp_cont, w1)
       /\ extractBlendRadii model_ req_list = Ok radii
       /\ checkForOverlappingRadii model_ resp_cont radii = Ok tt
       /\ solve_append_all planning_scene resp_cont radii
            (builder_reset (plan_comp_builder_ w1)) = Ok builder
       /\ solve_dedup_all (builder_build builder) = Ok res_vec
       /\ snd (solve model_ planning_scene planning_pipeline req_list w)
          = {| generatePlan_calls := generatePlan_calls w1;
               plan_comp_builder_ := builder |}.
Proof.
  intros Hne.
  destruct (items req_list) as [|item0 rest0] eqn:Hitems; [contradiction|].
  unfold solve. rewrite Hitems. unfold mbind, lift.
  destruct (checkForNegativeRadii req_list) as [[]| e1 | |];
    cbn [fst snd]; try discriminate.
  destruct (checkLastBlendRadiusZero req_list) as [[]| e1 | |];
    cbn [fst snd]; try discriminate.
  destruct (checkStartStates req_list) as [[]| e1 | |];
    cbn [fst snd]; try discriminate.
  destruct (solveSequenceItems planning_scene planning_pipeline req_list w)
    as [[resp_cont| e1 | |] w1] eqn:Hplan; cbn [fst snd]; try discriminate.
  destruct (extractBlendRadii model_ req_list) as [radii| e1 | |] eqn:Hextract;
    cbn [fst snd]; try discriminate.
  destruct (checkForOverlappingRadii model_ resp_cont radii) as [[]| e1 | |] eqn:Hoverlap;
    cbn [fst snd]; try discriminate.
  unfold with_builder, build. cbn [plan_comp_builder_ generatePlan_calls].
  destruct (solve_append_all planning_scene resp_cont radii
              (builder_reset (plan_comp_builder_ w1))) as [builder| e1 | |] eqn:Happend;
    cbn [fst snd plan_comp_builder_]; try discriminate.
  destruct (solve_dedup_all (builder_build builder)) as [res| e1 | |] eqn:Hdedup;
    cbn [fst snd]; try discriminate.
  intros H. injection H as ->.
  repeat split. exists resp_cont, w1, radii, builder.
  repeat split; try assumption; reflexivity.
Qed.

(** X16: when [solve] returns trajectories for a non-empty request list, the
    list was valid: no blend radius fails [>= 0], the last blend radius is
    zero, and no group has an explicit start state on any occurrence but its
    first. *)
Theorem solve_returns_only_for_valid_lists (model_ : RobotModel)
    (planning_scene : PlanningScene) (planning_pipeline : PlanningPipeline)
    (req_list : MotionSequenceRequest) (w : World) (res_vec : list RobotTrajectory) :
  items req_list <> [] ->
  fst (solve model_ planning_scene planning_pipeline req_list w) = Ok res_vec ->
  (forall item, In item (items req_list) -> PrimFloat.leb d0 (blend_radius item) = true)
  /\ (forall back, last (items req_list) = Some back ->
                   PrimFloat.eqb (blend_radius back) d0 = true)
  /\ ~ start_state_conflict (items req_list).
Proof.
  intros Hne Hok.
  destruct (solve_ok_cases _ _ _ _ _ _ Hne Hok) as (Hneg & Hlast & Hstart & _).
  split; [|split].
  - unfold checkForNegativeRadii in Hneg.
    destruct (forallb _ (items req_list)) eqn:Hall; [|discriminate].
    rewrite forallb_forall in Hall. exact Hall.
  - intros back Hback. unfold checkLastBlendRadiusZero in Hlast.
    rewrite Hback in Hlast.
    destruct (PrimFloat.eqb (blend_radius back) d0); [reflexivity | discriminate].
  - intros Hconflict.
    destruct (Nat.lt_ge_cases (length (items req_list)) 2) as [Hshort|Hlen].
    + destruct Hconflict as (i & j & item_i & item_j & Hij & Hi & Hj & _).
      apply lookup_lt_Some in Hj. lia.
    + destruct (checkStartStates_conflict req_list Hlen Hconflict) as (what & Hthrow).
      rewrite Hthrow in Hstart. discriminate.
Qed.

Lemma solve_returns_only_for_valid_lists_witness :
  (exists res_vec,
      fst (solve sample_model sample_scene (scripted_pipeline sample_script4)
             sample_sequence4 sample_world) = Ok res_vec)
  /\ ~ start_state_conflict (items sample_sequence4).
Proof.
  assert (Hrun : fst (solve sample_model sample_scene (scripted_pipeline sample_script4)
                        sample_sequence4 sample_world)
                 = Ok [concat_blender
                         (appended (plan_comp_builder_
                            (snd (solve sample_model sample_scene
                                    (scripted_pipeline sample_script4)
                                    sample_sequence4 sample_world))))])
    by reflexivity.
  split; [eexists; exact Hrun|].
  refine (proj2 (proj2 (solve_returns_only_for_valid_lists
                          sample_model sample_scene (scripted_pipeline sample_script4)
                          sample_sequence4 sample_world _ _ Hrun))).
  discriminate.
Defined.

(** X17: when [solve] returns trajectories for a request list of N >= 1
    items, it has consulted the planner exactly N times and left N entries
    in the builder, one per planned response, and what it returns is the
    de-duplicated output of the builder. *)
Theorem solve_success_accounting (model_ : RobotModel)
    (planning_scene : PlanningScene) (planning_pipeline : PlanningPipeline)
    (req_list : MotionSequenceRequest) (w : World) (res_vec : list RobotTrajectory) :
  items req_list <> [] ->
  fst (solve model_ planning_scene planning_pipeline req_list w) = Ok res_vec ->
  let w' := snd (solve model_ planning_scene planning_pipeline req_list w) in
  (exists requests,
      generatePlan_calls w' = generatePlan_calls w ++ requests
      /\ length requests = length (items req_list))
  /\ length (appended (plan_comp_builder_ w')) = length (items req_list)
  /\ solve_dedup_all (builder_build (plan_comp_builder_ w')) = Ok res_vec
  /\ length res_vec = length (builder_build (plan_comp_builder_ w')).
Proof.
  intros Hne Hok. cbn zeta.
  destruct (solve_ok_cases _ _ _ _ _ _ Hne Hok)
    as (_ & _ & _ & resp & w1 & radii & builder
        & Hplan & Hextract & _ & Happend & Hdedup & Hworld).
  rewrite Hworld. cbn [generatePlan_calls plan_comp_builder_].
  unfold solveSequenceItems in Hplan.
  destruct (solveSequenceItems_loop_success _ _ _ _ _ _ _ Hplan)
    as (requests & news & Hresp & Hcalls & Hlr & Hln & _).
  cbn [app] in Hresp. subst resp.
  pose proof (extractBlendRadii_length _ _ _ Hne Hextract) as Hradii.
  destruct (solve_append_all_entries planning_scene news radii
              (builder_reset (plan_comp_builder_ w1)) ltac:(lia))
    as (builder' & Happend' & _ & Hlen & _).
  rewrite Happend in Happend'. injection Happend' as <-.
  cbn [builder_reset appended length Nat.add] in Hlen.
  split; [exists requests; split; assumption|].
  split; [lia|]. split; [exact Hdedup|].
  clear - Hdedup. revert res_vec Hdedup.
  induction (builder_build builder) as [|traj rest IH]; intros res_vec Hdedup.
  - cbn in Hdedup. injection Hdedup as <-. reflexivity.
  - cbn [solve_dedup_all] in Hdedup.
    destruct (solve_dedup traj); try discriminate. cbn [rbind] in Hdedup.
    destruct (solve_dedup_all rest); try discriminate. cbn [rbind] in Hdedup.
    injection Hdedup as <-. cbn. rewrite (IH _ eq_refl). reflexivity.
Qed.

Lemma solve_success_accounting_witness :
  items sample_sequence4 <> []
  /\ length (appended (plan_comp_builder_
               (snd (solve sample_model sample_scene (scripted_pipeline sample_script4)
                       sample_sequence4 sample_world))))
     = length (items sample_sequence4).
Proof.
  split; [discriminate|].
  refine (proj1 (proj2 (solve_success_accounting
                          sample_model sample_scene (scripted_pipeline sample_script4)
                          sample_sequence4 sample_world _ _ _))).
  - discriminate.
  - reflexivity.
Defined.

(** ** The radii handed to the builder *)

Lemma extractBlendRadii_entries (P : double -> Prop) (model : RobotModel)
    (req_list : MotionSequenceRequest) (radii : list double) :
  P d0 ->
  (forall item, In item (items req_list) -> P (blend_radius item)) ->
  extractBlendRadii model req_list = Ok radii ->
  forall r, In r radii -> P r.
Proof.
  intros Pzero Pitems Hrun r Hr.
  destruct (items req_list) as [|item0 rest0] eqn:Hitems.
  { unfold extractBlendRadii in Hrun. rewrite Hitems in Hrun. discriminate. }
  rewrite <- Hitems in *.
  assert (Hlen : (1 <= length (items req_list))%nat) by (rewrite Hitems; cbn; lia).
  destruct (extractBlendRadii_loop_inv model (items req_list)
              (S (length (items req_list))) 0 (replicate (length (items req_list)) d0)
              Hlen ltac:(lia) ltac:(lia) (radii_upto_init model (items req_list)))
    as (radii' & Hrun' & Hlength & Hlast & Hdone).
  unfold extractBlendRadii in Hrun. cbn zeta in Hrun.
  change (Z.of_nat 0) with 0 in Hrun'. rewrite Hrun' in Hrun. injection Hrun as ->.
  apply list_elem_of_In, list_elem_of_lookup in Hr as (j & Hj).
  pose proof (lookup_lt_Some _ _ _ Hj) as Hjlen.
  destruct (Nat.lt_ge_cases j (length (items req_list) - 1)) as [Hlt|Hge].
  - destruct (lookup_lt_is_Some_2 (items req_list) j ltac:(lia)) as [item_A HA].
    destruct (lookup_lt_is_Some_2 (items req_list) (S j) ltac:(lia)) as [item_B HB].
    rewrite (Hdone j item_A item_B Hlt HA HB) in Hj. injection Hj as <-.
    destruct (isInvalidBlendRadii model item_A item_B); [exact Pzero|].
    apply Pitems, list_elem_of_In, (list_elem_of_lookup_2 _ j), HA.
  - rewrite (Hlast j) in Hj by lia. injection Hj as <-. exact Pzero.
Qed.

(** X18: when [solve] returns trajectories for a non-empty request list,
    every blend radius it has handed to the builder is [>= 0]: the builder
    never sees a negative or NaN radius. *)
Theorem solve_appends_nonnegative_radii (model_ : RobotModel)
    (planning_scene : PlanningScene) (planning_pipeline : PlanningPipeline)
    (req_list : MotionSequenceRequest) (w : World) (res_vec : list RobotTrajectory) :
  items req_list <> [] ->
  fst (solve model_ planning_scene planning_pipeline req_list w) = Ok res_vec ->
  forall entry,
    In entry (appended (plan_comp_builder_
                          (snd (solve model_ planning_scene planning_pipeline
                                  req_list w)))) ->
    PrimFloat.leb d0 (entry_blend_radius entry) = true.
Proof.
  intros Hne Hok entry Hentry.
  destruct (solve_ok_cases _ _ _ _ _ _ Hne Hok)
    as (Hneg & _ & _ & resp & w1 & radii & builder
        & Hplan & Hextract & _ & Happend & _ & Hworld).
  rewrite Hworld in Hentry. cbn [plan_comp_builder_] in Hentry.
  assert (Hradii : forall r, In r radii -> PrimFloat.leb d0 r = true).
  { apply (extractBlendRadii_entries (fun r => PrimFloat.leb d0 r = true)
             model_ req_list radii); [reflexivity | | exact Hextract].
    unfold checkForNegativeRadii in Hneg.
    destruct (forallb _ (items req_list)) eqn:Hall; [|discriminate].
    rewrite forallb_forall in Hall. exact Hall. }
  pose proof (extractBlendRadii_length _ _ _ Hne Hextract) as Hlr.
  unfold solveSequenceItems in Hplan.
  pose proof (solveSequenceItems_loop_length _ _ _ _ _ _ _ Hplan) as Hlresp.
  cbn [length Nat.add] in Hlresp.
  destruct (solve_append_all_entries planning_scene resp radii
              (builder_reset (plan_comp_builder_ w1)) ltac:(lia))
    as (builder' & Happend' & _ & Hlen & Hentries).
  rewrite Happend in Happend'. injection Happend' as <-.
  cbn [builder_reset appended length Nat.add] in Hlen, Hentries.
  apply list_elem_of_In, list_elem_of_lookup in Hentry as (i & Hi).
  pose proof (lookup_lt_Some _ _ _ Hi) as Hilen.
  destruct (lookup_lt_is_Some_2 resp i ltac:(lia)) as [response Hresponse].
  destruct (Hentries i response ltac:(lia) Hresponse) as (r & Hlookup & Hfirst & Hlater).
  rewrite Hi in Hlookup. injection Hlookup as ->. cbn [entry_blend_radius].
  destruct i as [|i'].
  - rewrite (Hfirst eq_refl). reflexivity.
  - apply Hradii, list_elem_of_In, (list_elem_of_lookup_2 _ i'), (Hlater i' eq_refl).
Qed.

Lemma solve_appends_nonnegative_radii_witness :
  items sample_sequence4 <> []
  /\ PrimFloat.leb d0
       (entry_blend_radius
          {| entry_scene := sample_scene;
             entry_trajectory := sample_trajectory "arm" [(10, 0); (20, 1)]%float;
             entry_blend_radius := 0.5%float |}) = true.
Proof.
  split; [discriminate|].
  refine (solve_appends_nonnegative_radii
            sample_model sample_scene (scripted_pipeline sample_script4)
            sample_sequence4 sample_world _ _ _
            {| entry_scene := sample_scene;
               entry_trajectory := sample_trajectory "arm" [(10, 0); (20, 1)]%float;
               entry_blend_radius := 0.5%float |} _).
  - discriminate.
  - reflexivity.
  - right. left. reflexivity.
Defined.

(** ** What the start-state exception names *)

Lemma checkStartStatesOfGroup_loop_later_throws req_items group e :
  checkStartStatesOfGroup_loop req_items group false = Throw e ->
  e = StartStateSetException (start_state_message group)
  /\ exists (j : nat) item_j,
       req_items !! j = Some item_j /\ group_name (req item_j) = group
       /\ has_explicit_start_state item_j.
Proof.
  induction req_items as [|item rest IH]; cbn [checkStartStatesOfGroup_loop];
    [discriminate|].
  destruct (String.eqb_spec (group_name (req item)) group) as [Heq|Hne]; cbn [negb].
  - destruct (start_state_empty item) eqn:Hempty; cbn [negb].
    + intros H. destruct (IH H) as (He & j & item_j & Hj & Hg & Hexp).
      split; [exact He|]. exists (S j), item_j. repeat split; assumption.
    + intros H. injection H as <-. split; [reflexivity|].
      exists 0%nat, item. repeat split; [assumption|].
      apply start_state_empty_false. exact Hempty.
  - intros H. destruct (IH H) as (He & j & item_j & Hj & Hg & Hexp).
    split; [exact He|]. exists (S j), item_j. repeat split; assumption.
Qed.

Lemma checkStartStatesOfGroup_throws req_list group e :
  checkStartStatesOfGroup req_list group = Throw e ->
  e = StartStateSetException (start_state_message group)
  /\ exists (i j : nat) item_i item_j,
       (i < j)%nat
       /\ items req_list !! i = Some item_i /\ items req_list !! j = Some item_j
       /\ group_name (req item_i) = group /\ group_name (req item_j) = group
       /\ has_explicit_start_state item_j.
Proof.
  unfold checkStartStatesOfGroup.
  induction (items req_list) as [|item rest IH]; cbn [checkStartStatesOfGroup_loop];
    [discriminate|].
  destruct (String.eqb_spec (group_name (req item)) group) as [Heq|Hne]; cbn [negb].
  - intros H.
    destruct (checkStartStatesOfGroup_loop_later_throws _ _ _ H)
      as (He & j & item_j & Hj & Hg & Hexp).
    split; [exact He|]. exists 0%nat, (S j), item, item_j.
    repeat split; try assumption. lia.
  - intros H. destruct (IH H) as (He & i & j & item_i & item_j & Hij & Hi & Hj & Hrest).
    split; [exact He|]. exists (S i), (S j), item_i, item_j.
    repeat split; try assumption; try lia; apply Hrest.
Qed.

(** X19: the message of the exception raised by [checkStartStates] quotes a
    group of the request list that does break the rule: two of its items
    target that group and the later one carries an explicit start state. *)
Theorem checkStartStates_names_offending_group (req_list : MotionSequenceRequest)
    (e : Exception) :
  checkStartStates req_list = Throw e ->
  exists group,
    e = StartStateSetException (start_state_message group)
    /\ exists (i j : nat) item_i item_j,
         (i < j)%nat
         /\ items req_list !! i = Some item_i /\ items req_list !! j = Some item_j
         /\ group_name (req item_i) = group /\ group_name (req item_j) = group
         /\ has_explicit_start_state item_j.
Proof.
  unfold checkStartStates. destruct (size _ <=? 1); [discriminate|].
  induction (getGroupNames req_list) as [|g rest IH]; cbn [checkStartStates_loop];
    [discriminate|].
  destruct (checkStartStatesOfGroup req_list g) as [[]| e' | |] eqn:Hgroup;
    cbn [rbind]; try discriminate.
  - exact IH.
  - intros H. injection H as ->. exists g.
    exact (checkStartStatesOfGroup_throws _ _ _ Hgroup).
Qed.

Lemma checkStartStates_names_offending_group_witness :
  checkStartStates {| items := [sample_item "arm" no_start_state 0.5%float;
                                sample_item "gripper" no_start_state 0.5%float;
                                sample_item "gripper" some_start_state 0%float] |}
  = Throw (StartStateSetException (start_state_message "gripper"))
  /\ exists group,
       StartStateSetException (start_state_message "gripper")
       = StartStateSetException (start_state_message group)
       /\ exists (i j : nat) item_i item_j,
            (i < j)%nat
            /\ items {| items := [sample_item "arm" no_start_state 0.5%float;
                                  sample_item "gripper" no_start_state 0.5%float;
                                  sample_item "gripper" some_start_state 0%float] |}
               !! i = Some item_i
            /\ items {| items := [sample_item "arm" no_start_state 0.5%float;
                                  sample_item "gripper" no_start_state 0.5%float;
                                  sample_item "gripper" some_start_state 0%float] |}
               !! j = Some item_j
            /\ group_name (req item_i) = group /\ group_name (req item_j) = group
            /\ has_explicit_start_state item_j.
Proof.
  split; [reflexivity|].
  apply checkStartStates_names_offending_group. reflexivity.
Defined.
